(** * RepoMap: a bounded, deterministic repository summariser

    Shallow embedding of [extensions/vscode/tools/repomap/repomap.py] and the
    properties of its path filter, tree builder, scan scheduler, file scanner,
    budget ledger and ranker.

    Conventions of the model.
    - A Python [str] is a [string]; the model is restricted to ASCII text, so
      that the UTF-8 length of a line is its number of characters.
    - A Python [int] is a [Z]; list indices and lengths are [nat] and are
      injected into [Z] where the source compares them with an [int].
    - The host is POSIX: [os.sep] is ["/"], so [replace(os.sep, "/")] is the
      identity and is not written.
    - A [dict] whose iteration order is observed is an association list in
      insertion order; a [dict] only used for lookups is a [gmap]. *)

From Stdlib Require Import ZArith Ascii String.
From stdpp Require Import gmap strings list sorting.

Open Scope Z_scope.

(** ** Python string primitives *)

Module PyStr.

Definition chars (s : string) : list ascii := list_ascii_of_string s.
Definition of_chars (l : list ascii) : string := string_of_list_ascii l.

Definition len (s : string) : Z := Z.of_nat (String.length s).

(** [s.startswith(p)] *)
Definition startswith (s p : string) : bool := String.prefix p s.

(** [sub in s] *)
Fixpoint contains (sub s : string) : bool :=
  String.prefix sub s ||
  match s with
  | EmptyString => false
  | String _ s' => contains sub s'
  end.

Definition lower_char (c : ascii) : ascii :=
  let n := nat_of_ascii c in
  if (Nat.leb 65 n && Nat.leb n 90)%bool then ascii_of_nat (n + 32) else c.

(** [s.lower()] on ASCII text. *)
Fixpoint lower (s : string) : string :=
  match s with
  | EmptyString => EmptyString
  | String c s' => String (lower_char c) (lower s')
  end.

(** The characters [str.isspace] and the regex class [\s] accept, below 128. *)
Definition is_space (c : ascii) : bool :=
  let n := nat_of_ascii c in
  (Nat.leb 9 n && Nat.leb n 13)%bool || (Nat.leb 28 n && Nat.leb n 32)%bool.

Fixpoint lstrip (s : string) : string :=
  match s with
  | EmptyString => EmptyString
  | String c s' => if is_space c then lstrip s' else s
  end.

(** [s.strip()] *)
Definition strip (s : string) : string :=
  String.rev (lstrip (String.rev (lstrip s))).

(** [s.split(sep)] for a one-character separator. *)
Fixpoint split (sep : ascii) (s : string) : list string :=
  match s with
  | EmptyString => [EmptyString]
  | String c s' =>
      if Ascii.eqb c sep then EmptyString :: split sep s'
      else match split sep s' with
           | [] => [String c EmptyString]
           | w :: ws => String c w :: ws
           end
  end.

(** [s.split(sep, 1)] for a one-character separator. *)
Fixpoint split1 (sep : ascii) (s : string) : list string :=
  match s with
  | EmptyString => [EmptyString]
  | String c s' =>
      if Ascii.eqb c sep then [EmptyString; s']
      else match split1 sep s' with
           | [] => [String c EmptyString]
           | w :: ws => String c w :: ws
           end
  end.

(** [sep.join(parts)] *)
Fixpoint join (sep : string) (parts : list string) : string :=
  match parts with
  | [] => EmptyString
  | [p] => p
  | p :: ps => p +:+ sep +:+ join sep ps
  end.

(** [s * n], as in ["  " * depth]; a count below one gives the empty string. *)
Definition repeat (s : string) (n : Z) : string :=
  Nat.iter (Z.to_nat n) (String.append s) EmptyString.

(** [l[:n]]: a negative bound counts from the end. *)
Definition list_upto {A} (n : Z) (l : list A) : list A :=
  if 0 <=? n then take (Z.to_nat n) l
  else take (length l - Z.to_nat (- n)) l.

(** [s[:n]] *)
Definition upto (n : Z) (s : string) : string :=
  of_chars (list_upto n (chars s)).

(** Index of the last occurrence of [c] in [l], or [-1]. *)
Fixpoint rfind_chars (c : ascii) (l : list ascii) : Z :=
  match l with
  | [] => -1
  | x :: l' =>
      let r := rfind_chars c l' in
      if 0 <=? r then r + 1
      else if Ascii.eqb x c then 0 else -1
  end.

(** [s.rfind(c)] for a one-character needle. *)
Definition rfind (c : ascii) (s : string) : Z := rfind_chars c (chars s).

(** [os.path.basename(p)] *)
Definition basename (p : string) : string := List.last (split "/" p) EmptyString.

Definition all_dots (s : string) : bool :=
  forallb (Ascii.eqb ".") (chars s).

(** [os.path.splitext(p)[1]]: the suffix from the last dot of the last
    component, unless that component has only leading dots before it. *)
Definition splitext_ext (p : string) : string :=
  let base := basename p in
  let parts := split "." base in
  match List.rev parts with
  | [] | [_] => EmptyString
  | e :: before =>
      if all_dots (join "." (List.rev before)) then EmptyString
      else String "." e
  end.

End PyStr.

(** ** A backtracking matcher for the regular expressions of the tables

    [re.compile(p).match(line)] follows Python's backtracking semantics: the
    alternatives of [|] are tried left to right, [*], [+] and [?] are greedy
    and give characters back on failure, and the groups of the first
    successful path are reported. *)

Module Re.

Inductive regex : Type :=
| Eps : regex
| Chr : (ascii → bool) → regex
| Cat : regex → regex → regex
| Alt : regex → regex → regex
| Star : regex → regex
| Group : nat → regex → regex.

Definition Opt (r : regex) : regex := Alt r Eps.
Definition Plus (r : regex) : regex := Cat r (Star r).

Fixpoint Lit (s : string) : regex :=
  match s with
  | EmptyString => Eps
  | String c s' => Cat (Chr (Ascii.eqb c)) (Lit s')
  end.

Fixpoint Alts (rs : list regex) : regex :=
  match rs with
  | [] => Chr (λ _, false)
  | [r] => r
  | r :: rs' => Alt r (Alts rs')
  end.

(** Character classes, on ASCII. *)
Definition between (lo hi : nat) (c : ascii) : bool :=
  let n := nat_of_ascii c in (Nat.leb lo n && Nat.leb n hi)%bool.
Definition is_alpha (c : ascii) : bool := between 65 90 c || between 97 122 c.
Definition is_digit (c : ascii) : bool := between 48 57 c.
Definition is_underscore (c : ascii) : bool := Ascii.eqb c "_".
(** [\w] *)
Definition word (c : ascii) : bool := is_alpha c || is_digit c || is_underscore c.
(** [\s] *)
Definition space (c : ascii) : bool := PyStr.is_space c.
(** [.] under [re.DOTALL] *)
Definition any (c : ascii) : bool := true.

(** Group number to captured text. *)
Definition captures := list (nat * string).

Definition set_group (n : nat) (v : string) (c : captures) : captures :=
  (n, v) :: filter (λ kv, kv.1 ≠ n) c.

Definition group (c : captures) (n : nat) : option string :=
  snd <$> List.find (λ kv, Nat.eqb kv.1 n) c.

(** The text consumed between a position [s] and a later position [s']. *)
Definition consumed (s s' : string) : string :=
  String.substring 0 (String.length s - String.length s') s.

(** [go r s c k]: match [r] at the start of [s], then continue with [k] on
    the rest; [None] makes the caller backtrack. *)
Fixpoint go (r : regex) (s : string) (c : captures)
    (k : string → captures → option captures) {struct r} : option captures :=
  match r with
  | Eps => k s c
  | Chr p =>
      match s with
      | String a s' => if p a then k s' c else None
      | EmptyString => None
      end
  | Cat r1 r2 => go r1 s c (λ s' c', go r2 s' c' k)
  | Alt r1 r2 =>
      match go r1 s c k with
      | Some res => Some res
      | None => go r2 s c k
      end
  | Star r1 =>
      (fix iter (fuel : nat) (s : string) (c : captures) : option captures :=
         match fuel with
         | O => k s c
         | S fuel' =>
             match go r1 s c (λ s' c',
                       if Nat.ltb (String.length s') (String.length s)
                       then iter fuel' s' c' else None) with
             | Some res => Some res
             | None => k s c
             end
         end) (String.length s) s c
  | Group n r1 =>
      go r1 s c (λ s' c', k s' (set_group n (consumed s s') c'))
  end.

(** [pattern.match(line)]: anchored at the start, free at the end. *)
Definition pmatch (r : regex) (line : string) : option captures :=
  go r line [] (λ _ c, Some c).

(** [re.fullmatch]: anchored at both ends, as [fnmatch] compiles its
    patterns. *)
Definition fullmatch (r : regex) (s : string) : bool :=
  bool_decide (is_Some (go r s [] (λ s' c,
     match s' with EmptyString => Some c | _ => None end))).

End Re.

(** ** Constants and tables *)

Definition DEFAULT_MAX_TREE_CHARS : Z := 4000.
Definition DEFAULT_MAX_SYMBOLS : Z := 200.
Definition DEFAULT_MAX_TOP_FILES : Z := 50.
Definition DEFAULT_MAX_HOTSPOTS : Z := 20.
Definition DEFAULT_MAX_TREE_DEPTH : Z := 4.
Definition DEFAULT_MAX_FILE_KB : Z := 512.
Definition DEFAULT_MAX_FILE_BYTES : Z := DEFAULT_MAX_FILE_KB * 1024.
Definition DEFAULT_MAX_SCAN_LINES : Z := 4000.
Definition DEFAULT_MAX_FILES : Z := 5000.
Definition DEFAULT_MAX_TOTAL_BYTES : Z := 20 * 1024 * 1024.
Definition MAX_SYMBOLS_PER_FILE : Z := 25.

Definition DEFAULT_EXCLUDED_DIRS : list string :=
  [ ".git"; "node_modules"; "dist"; "build"; "DerivedData"; ".next"; ".turbo";
    ".cache"; ".idea"; ".vscode"; ".pnpm-store"; "Pods"; "__pycache__";
    ".pytest_cache"; ".mypy_cache"; ".ruff_cache"; ".venv"; "venv"; ".tox";
    "target"; "coverage"; ".build"; ".swiftpm" ].

Definition IMPORTANT_FILENAMES : list string :=
  [ "readme"; "readme.md"; "readme.rst"; "readme.txt"; "package.json";
    "pnpm-lock.yaml"; "yarn.lock"; "package-lock.json"; "cargo.toml";
    "pyproject.toml"; "requirements.txt"; "setup.py"; "tsconfig.json";
    "tsconfig.base.json"; "tsconfig.app.json"; "tsconfig.node.json";
    "config.yaml"; "config.yml" ].

Definition ENTRYPOINT_FILENAMES : list string :=
  [ "main.ts"; "main.tsx"; "main.js"; "main.jsx"; "index.ts"; "index.tsx";
    "index.js"; "index.jsx"; "app.ts"; "app.tsx"; "app.js"; "app.jsx" ].

(** [x in table] for a set of strings. *)
Definition mem (x : string) (table : list string) : bool :=
  existsb (String.eqb x) table.

Definition EXT_SCAN_PRIORITY : list (string * Z) :=
  [ (".swift", 0); (".ts", 1); (".tsx", 1); (".js", 2); (".jsx", 2);
    (".py", 3); (".rs", 4); (".go", 5); (".java", 6); (".kt", 6); (".md", 7);
    (".yml", 8); (".yaml", 8); (".toml", 9); (".json", 10) ].

(** [table.get(key)] *)
Definition assoc_get {V} (table : list (string * V)) (key : string) : option V :=
  snd <$> List.find (λ kv, String.eqb kv.1 key) table.

Module Patterns.
Import Re.

Definition ws : regex := Star (Chr space).
Definition ws1 : regex := Plus (Chr space).
Definition name1 : regex := Group 1 (Plus (Chr word)).
Definition export : regex := Opt (Cat (Lit "export") ws1).

(** The pattern "^\s*(?:export\s+)?KEYWORD\s+(\w+)". *)
Definition exported (keyword : regex) : regex :=
  Cat ws (Cat export (Cat keyword (Cat ws1 name1))).

Definition ts : list (regex * option string) :=
  [ (exported (Lit "class"), Some "class");
    (exported (Lit "interface"), Some "typealias");
    (exported (Lit "type"), Some "typealias");
    (exported (Lit "enum"), Some "enum");
    (exported (Lit "function"), Some "func");
    (exported (Alts [Lit "const"; Lit "let"; Lit "var"]), Some "var") ].

(** The pattern "^\s*KEYWORD\s+(\w+)". *)
Definition plain (keyword : string) : regex :=
  Cat ws (Cat (Lit keyword) (Cat ws1 name1)).

Definition py : list (regex * option string) :=
  [ (plain "class", Some "class"); (plain "def", Some "func") ].

(** The fragment "(?:@\w+(?:\([^)]*\))?\s+)*". *)
Definition swift_attributes : regex :=
  Star (Cat (Lit "@")
       (Cat (Plus (Chr word))
       (Cat (Opt (Cat (Lit "(")
                 (Cat (Star (Chr (λ c, negb (Ascii.eqb c ")")))) (Lit ")"))))
            ws1))).

(** The fragment "(?:(?:public|private|...|convenience)\s+)*". *)
Definition swift_modifiers : regex :=
  Star (Cat (Alts (Lit <$>
               [ "public"; "private"; "internal"; "open"; "fileprivate";
                 "final"; "static"; "class"; "mutating"; "nonisolated";
                 "lazy"; "override"; "required"; "convenience" ]))
            ws1).

(** Group 1 is the keyword "(class|struct|protocol|enum|typealias|actor)",
    then "\s+", then group 2 is a letter or underscore followed by any
    number of word characters. *)
Definition swift_declaration : regex :=
  Cat (Group 1 (Alts (Lit <$>
         [ "class"; "struct"; "protocol"; "enum"; "typealias"; "actor" ])))
 (Cat ws1
      (Group 2 (Cat (Chr (λ c, is_alpha c || is_underscore c))
                    (Star (Chr word))))).

Definition swift : list (regex * option string) :=
  [ (Cat ws (Cat swift_attributes (Cat swift_modifiers swift_declaration)),
     None) ].

End Patterns.

(** The final table, after the [.ts] patterns were reused for JS/TSX/JSX. *)
Definition SYMBOL_PATTERNS : list (string * list (Re.regex * option string)) :=
  [ (".ts", Patterns.ts); (".tsx", Patterns.ts); (".js", Patterns.ts);
    (".jsx", Patterns.ts); (".py", Patterns.py); (".swift", Patterns.swift) ].

(** ** File scanner *)

Record Symbol : Type := mkSymbol {
  sym_name : string;
  sym_kind : string;
  sym_path : string;
  sym_line : Z;
}.

Definition KINDS : list string :=
  [ "class"; "struct"; "func"; "protocol"; "enum"; "typealias"; "var"; "let" ].

(** The normalisation of [kind] inside the pattern loop of [scan_file]. *)
Definition normalize_kind (kind : string) : string :=
  if negb (mem kind KINDS) then
    let kind := if mem kind ["actor"] then "class" else kind in
    if mem kind ["interface"] then "typealias"
    else if mem kind ["function"] then "func"
    else if mem kind ["const"] then "var"
    else "typealias"
  else kind.

(** The [for pattern, kind in patterns] loop: the first pattern that matches
    the line gives the symbol's name and kind. *)
Fixpoint first_match (patterns : list (Re.regex * option string)) (line : string)
    : option (string * string) :=
  match patterns with
  | [] => None
  | (pattern, kind) :: rest =>
      match Re.pmatch pattern line with
      | None => first_match rest line
      | Some m =>
          let '(name, kind) :=
            match kind with
            | None => (default "" (Re.group m 2), default "" (Re.group m 1))
            | Some kind => (default "" (Re.group m 1), kind)
            end in
          Some (name, normalize_kind kind)
      end
  end.

(** The lines [scan_file] does not offer to the patterns. *)
Definition skipped_line (line : string) : bool :=
  let stripped := PyStr.strip line in
  String.eqb stripped "" || PyStr.startswith stripped ":"
  || PyStr.startswith stripped "#" || PyStr.startswith stripped "//"
  || PyStr.startswith stripped "/*" || PyStr.startswith stripped "*".

(** The local variables of [scan_file]. *)
Record scan_state : Type := mkScan {
  s_patterns : option (list (Re.regex * option string));
  s_symbols : list Symbol;
  s_line_count : Z;
  s_bytes_read : Z;
  s_truncated : bool;
}.

(** Truthiness of [patterns]: neither [None] nor an empty list. *)
Definition truthy {A} (patterns : option (list A)) : bool :=
  match patterns with Some (_ :: _) => true | _ => false end.

(** The part of the loop body after the budget checks. *)
Definition match_line (rel_path line : string) (st : scan_state) : scan_state :=
  if negb (truthy (s_patterns st)) then st
  else if skipped_line line then st
  else
    match first_match (default [] (s_patterns st)) line with
    | None => st
    | Some (name, kind) =>
        let symbols :=
          s_symbols st ++ [mkSymbol name kind rel_path (s_line_count st)] in
        let patterns :=
          if Z.of_nat (length symbols) >=? MAX_SYMBOLS_PER_FILE then None
          else s_patterns st in
        mkScan patterns symbols (s_line_count st) (s_bytes_read st)
               (s_truncated st)
    end.

Definition set_truncated (st : scan_state) : scan_state :=
  mkScan (s_patterns st) (s_symbols st) (s_line_count st) (s_bytes_read st) true.

(** [for line in f: ...], with its four [break]s. *)
Fixpoint scan_lines (rel_path : string)
    (max_file_bytes max_scan_lines max_total_bytes_remaining : Z)
    (lines : list string) (st : scan_state) : scan_state :=
  match lines with
  | [] => st
  | line :: rest =>
      let st := mkScan (s_patterns st) (s_symbols st) (s_line_count st + 1)
                       (s_bytes_read st) (s_truncated st) in
      if s_line_count st >? max_scan_lines then st
      else if max_total_bytes_remaining <=? 0 then set_truncated st
      else
        let st := mkScan (s_patterns st) (s_symbols st) (s_line_count st)
                         (s_bytes_read st + PyStr.len line) (s_truncated st) in
        if s_bytes_read st >? max_file_bytes then set_truncated st
        else if s_bytes_read st >? max_total_bytes_remaining then
          set_truncated st
        else
          scan_lines rel_path max_file_bytes max_scan_lines
            max_total_bytes_remaining rest (match_line rel_path line st)
  end.

(** What the operating system answers about a path. [read_lines] is the
    sequence of lines the text-mode iteration yields, or [None] when opening or
    reading raises. *)
Record os_files : Type := mkOs {
  getsize : string → option Z;
  getmtime : string → option Z;
  read_lines : string → option (list string);
}.

(** The result tuple [(line_count, symbols, bytes_read, truncated)]. *)
Definition scan_result : Type := option Z * list Symbol * Z * bool.

Definition scan_file (os : os_files) (rel_path abs_path : string)
    (max_file_kb max_file_bytes max_scan_lines max_total_bytes_remaining : Z)
    : scan_result :=
  (* [main] calls [scan_file] only after [getsize] succeeded on this path *)
  let size := default 0 (getsize os abs_path) in
  (* size_kb > max_file_kb, with size_kb = size / 1024 *)
  if size >? max_file_kb * 1024 then (None, [], 0, false)
  else
    let ext := PyStr.lower (PyStr.splitext_ext rel_path) in
    let patterns := assoc_get SYMBOL_PATTERNS ext in
    match read_lines os abs_path with
    | None => (None, [], 0, false)
    | Some lines =>
        let st := scan_lines rel_path max_file_bytes max_scan_lines
                    max_total_bytes_remaining lines
                    (mkScan patterns [] 0 0 false) in
        (Some (s_line_count st), s_symbols st, s_bytes_read st, s_truncated st)
    end.

(** ** Sorting

    [sorted] and [list.sort] are stable; insertion from the right into the
    sorted tail, before the first element that is not smaller, is the stable
    sort for the order [le] on the sort keys. *)

Fixpoint insert_sorted {A} (le : A → A → bool) (x : A) (l : list A) : list A :=
  match l with
  | [] => [x]
  | y :: l' => if le x y then x :: l else y :: insert_sorted le x l'
  end.

Definition sorted {A} (le : A → A → bool) (l : list A) : list A :=
  foldr (insert_sorted le) [] l.

(** ** Path filter *)

Module Fnmatch.
Import Re.

(** Membership in the character set written between the brackets: [lo-hi]
    is a range, every other character stands for itself. *)
Fixpoint in_set (stuff : list ascii) (c : ascii) : bool :=
  match stuff with
  | [] => false
  | lo :: rest =>
      match rest with
      | dash :: hi :: rest' =>
          if Ascii.eqb dash "-"
          then between (nat_of_ascii lo) (nat_of_ascii hi) c || in_set rest' c
          else Ascii.eqb lo c || in_set rest c
      | _ => Ascii.eqb lo c || in_set rest c
      end
  end.

(** The scan for the closing bracket: the number of characters between the
    brackets, when there is a closing bracket. A leading [!] and a [\]] right
    after it do not close the set. *)
Definition set_length (rest : list ascii) : option nat :=
  let j := match rest with "!"%char :: _ => 1%nat | _ => 0%nat end in
  let j := match drop j rest with "]"%char :: _ => S j | _ => j end in
  (λ i, (j + i)%nat) <$>
    list_find (λ c, c = "]"%char) (drop j rest) ≫= (λ ic, Some ic.1).

Definition set_regex (stuff : list ascii) : regex :=
  match stuff with
  | "!"%char :: stuff' => Chr (λ c, negb (in_set stuff' c))
  | _ => Chr (in_set stuff)
  end.

(** [fnmatch.translate]: [skip] counts the characters of a bracket
    expression already translated. *)
Fixpoint translate_from (skip : nat) (pat : list ascii) : regex :=
  match pat with
  | [] => Eps
  | c :: rest =>
      match skip with
      | S skip' => translate_from skip' rest
      | O =>
          if Ascii.eqb c "*" then Cat (Star (Chr any)) (translate_from 0 rest)
          else if Ascii.eqb c "?" then Cat (Chr any) (translate_from 0 rest)
          else if Ascii.eqb c "[" then
            match set_length rest with
            | None => Cat (Chr (Ascii.eqb "[")) (translate_from 0 rest)
            | Some n =>
                Cat (set_regex (take n rest)) (translate_from (S n) rest)
            end
          else Cat (Chr (Ascii.eqb c)) (translate_from 0 rest)
      end
  end.

Definition translate (pat : string) : regex :=
  translate_from 0 (PyStr.chars pat).

(** [fnmatch.fnmatch(name, pat)] on a POSIX host, where [normcase] changes
    nothing. *)
Definition fnmatch (name pat : string) : bool :=
  fullmatch (translate pat) name.

End Fnmatch.

Definition endswith (s suffix : string) : bool :=
  String.prefix (String.rev suffix) (String.rev s).

Definition match_pattern (pattern rel_path : string) (is_dir : bool) : bool :=
  if endswith pattern "/" then
    if negb is_dir then false
    else
      let prefix := PyStr.upto (-1) pattern in
      String.eqb rel_path prefix || PyStr.startswith rel_path (prefix +:+ "/")
  else
    Fnmatch.fnmatch rel_path pattern
    || Fnmatch.fnmatch (PyStr.basename rel_path) pattern.

Definition should_exclude (rel_path : string) (is_dir : bool)
    (exclude_dirs exclude_globs include_globs : list string)
    (gitignore_patterns gitignore_neg_patterns : list string) : bool :=
  let parts := PyStr.split "/" rel_path in
  if existsb (λ part, mem part exclude_dirs) parts then true
  else if existsb (λ pattern, match_pattern pattern rel_path is_dir) exclude_globs
  then true
  else
    let matched :=
      match gitignore_patterns with
      | [] => false
      | _ => existsb (λ p, match_pattern p rel_path is_dir) gitignore_patterns
      end in
    if matched then
      match gitignore_neg_patterns with
      | [] => true
      | _ =>
          if existsb (λ p, match_pattern p rel_path is_dir) gitignore_neg_patterns
          then false else true
      end
    else
      match include_globs with
      | [] => false
      | _ => negb (existsb (λ p, match_pattern p rel_path is_dir) include_globs)
      end.

(** [load_gitignore], from the lines of [<repo_root>/.gitignore]; [None]
    stands for a missing or unreadable file. *)
Fixpoint gitignore_lines (lines : list string) : list string * list string :=
  match lines with
  | [] => ([], [])
  | line :: rest =>
      let '(patterns, neg_patterns) := gitignore_lines rest in
      let line := PyStr.strip line in
      if String.eqb line "" || PyStr.startswith line "#" then
        (patterns, neg_patterns)
      else if PyStr.startswith line "!" then
        (patterns, String.substring 1 (String.length line) line :: neg_patterns)
      else (line :: patterns, neg_patterns)
  end.

Definition load_gitignore (file : option (list string))
    : list string * list string :=
  match file with
  | None => ([], [])
  | Some lines => gitignore_lines lines
  end.

(** ** Directory structure *)

(** What [os.listdir], [os.path.isdir] and [os.walk] see below the root. A
    directory whose listing raises has no listing. *)
#[local] Unset Elimination Schemes.
Inductive entry : Type :=
| File : string → entry
| Dir : string → option (list entry) → entry.
#[local] Set Elimination Schemes.

Definition entry_name (e : entry) : string :=
  match e with File name | Dir name _ => name end.

Definition isdir (e : entry) : bool :=
  match e with Dir _ _ => true | File _ => false end.

(** The filter arguments every traversal passes on to [should_exclude]. *)
Record filters : Type := mkFilters {
  exclude_dirs : list string;
  exclude_globs : list string;
  include_globs : list string;
  gitignore_patterns : list string;
  gitignore_neg_patterns : list string;
}.

Definition excluded (f : filters) (rel_path : string) (is_dir : bool) : bool :=
  should_exclude rel_path is_dir (exclude_dirs f) (exclude_globs f)
    (include_globs f) (gitignore_patterns f) (gitignore_neg_patterns f).

(** [f"{rel_dir}/{entry}" if rel_dir else entry] *)
Definition child_rel (rel_dir name : string) : string :=
  if String.eqb rel_dir "" then name else rel_dir +:+ "/" +:+ name.

(** [os.path.join(repo_root, rel)] for a relative, non-empty [rel]. *)
Definition path_join (repo_root rel : string) : string :=
  if endswith repo_root "/" then repo_root +:+ rel
  else repo_root +:+ "/" +:+ rel.

(** Entries in the order of [sorted(os.listdir(dir_path))], each with what
    the recursive call on it produces. *)
Definition sorted_entries {A} (children : list (entry * A)) : list (entry * A) :=
  sorted (λ a b, String.leb (entry_name a.1) (entry_name b.1)) children.

(** ** File discovery *)

(** The pairs [(rel, abs_path)] that [iter_files] yields below one directory:
    first the files of the directory, then each kept sub-directory in turn. *)
Fixpoint iter_files_in (repo_root : string) (f : filters) (rel_dir : string)
    (e : entry) : list (string * string) :=
  match e with
  | File _ => []
  | Dir _ None => []
  | Dir _ (Some children) =>
      let entries :=
        sorted_entries
          (map (λ c, (c, iter_files_in repo_root f
                           (child_rel rel_dir (entry_name c)) c)) children) in
      let pruned_dirs :=
        filter (λ cs, isdir cs.1 = true ∧
                      excluded f (child_rel rel_dir (entry_name cs.1)) true = false)
               entries in
      let filenames :=
        filter (λ cs, isdir cs.1 = false ∧
                      excluded f (child_rel rel_dir (entry_name cs.1)) false = false)
               entries in
      map (λ cs, let rel := child_rel rel_dir (entry_name cs.1) in
                 (rel, path_join repo_root rel)) filenames
      ++ concat (map snd pruned_dirs)
  end.

Definition iter_files (repo_root : string) (f : filters) (root : entry)
    : list (string * string) :=
  iter_files_in repo_root f "" root.

(** ** Tree builder *)

(** The lines [walk(dir_path, depth)] appends to [lines]. *)
Fixpoint walk (max_depth : Z) (f : filters) (rel_dir : string) (depth : Z)
    (e : entry) : list string :=
  if depth >? max_depth then []
  else
    match e with
    | File _ => []
    | Dir _ None => []
    | Dir _ (Some children) =>
        let entries :=
          sorted_entries
            (map (λ c, (c, walk max_depth f (child_rel rel_dir (entry_name c))
                             (depth + 1) c)) children) in
        let dirs :=
          filter (λ cs, isdir cs.1 = true ∧
                        excluded f (child_rel rel_dir (entry_name cs.1)) true = false)
                 entries in
        let files :=
          filter (λ cs, isdir cs.1 = false ∧
                        excluded f (child_rel rel_dir (entry_name cs.1)) false = false)
                 entries in
        concat (map (λ cs,
                  (PyStr.repeat "  " depth +:+ entry_name cs.1 +:+ "/")
                  :: (if depth <? max_depth then cs.2 else [])) dirs)
        ++ map (λ cs, PyStr.repeat "  " depth +:+ entry_name cs.1) files
    end.

Definition newline : ascii := ascii_of_nat 10.
Definition newline_str : string := String newline EmptyString.

(** The end of [build_tree]: join the lines and cut to [max_chars]. *)
Definition cut_tree (lines : list string) (max_chars : Z) : string * bool :=
  let tree := PyStr.join newline_str lines in
  if PyStr.len tree <=? max_chars then (tree, false)
  else
    let truncated := PyStr.upto max_chars tree in
    let last_newline := PyStr.rfind newline truncated in
    let truncated :=
      if last_newline >? 0 then PyStr.upto last_newline truncated
      else truncated in
    (truncated, true).

Definition build_tree (root : entry) (max_depth max_chars : Z) (f : filters)
    : string * bool :=
  cut_tree (walk max_depth f "" 0 root) max_chars.

(** ** Scan scheduler *)

Definition group_key (rel_path : string) : string :=
  if PyStr.contains "/" rel_path
  then default "" (head (PyStr.split1 "/" rel_path))
  else rel_path.

Definition ext_priority (rel_path : string) : Z * string :=
  let ext := PyStr.lower (PyStr.splitext_ext rel_path) in
  (default 100 (assoc_get EXT_SCAN_PRIORITY ext), rel_path).

Definition NAME_TOKENS : list string :=
  [ "orchestrator"; "sherpa"; "skillkit"; "workflowpack"; "workflow"; "skill";
    "registry"; "executor"; "planner"; "provider"; "session"; "manager" ].

(** [for i, token in enumerate(tokens): if token in base: return i] *)
Fixpoint first_token (i : Z) (tokens : list string) (base : string) : option Z :=
  match tokens with
  | [] => None
  | token :: rest =>
      if PyStr.contains token base then Some i else first_token (i + 1) rest base
  end.

Definition name_priority (rel_path : string) : Z :=
  let base := PyStr.lower (PyStr.basename rel_path) in
  default (Z.of_nat (length NAME_TOKENS) + 1) (first_token 0 NAME_TOKENS base).

(** A candidate file [(rel_path, abs_path)]. *)
Definition candidate : Type := string * string.

(** The sort key [(ext_priority(item[0])[0], name_priority(item[0]), item[0])]
    and the order of Python tuples on it. *)
Definition scan_key (item : candidate) : Z * Z * string :=
  ((ext_priority item.1).1, name_priority item.1, item.1).

Definition key_le (a b : Z * Z * string) : bool :=
  let '(e1, n1, p1) := a in
  let '(e2, n2, p2) := b in
  (e1 <? e2) || ((e1 =? e2) && ((n1 <? n2) || ((n1 =? n2) && String.leb p1 p2))).

Definition scan_le (a b : candidate) : bool := key_le (scan_key a) (scan_key b).

(** [grouped.setdefault(k, []).append(item)] on a dictionary in insertion
    order. *)
Fixpoint setdefault_append (k : string) (item : candidate)
    (grouped : list (string * list candidate)) : list (string * list candidate) :=
  match grouped with
  | [] => [(k, [item])]
  | (k', group) :: rest =>
      if String.eqb k' k then (k', group ++ [item]) :: rest
      else (k', group) :: setdefault_append k item rest
  end.

Definition group_files (files : list candidate) : list (string * list candidate) :=
  fold_left (λ grouped item, setdefault_append (group_key item.1) item grouped)
            files [].

(** One visit of a key inside the [while] loop; the state is
    [(indices, ordered, progressed)]. *)
Definition visit_key (grouped : list (string * list candidate))
    (st : gmap string nat * list candidate * bool) (k : string)
    : gmap string nat * list candidate * bool :=
  let '(indices, ordered, progressed) := st in
  let idx := default 0%nat (indices !! k) in
  match default [] (assoc_get grouped k) !! idx with
  | None => st                                (* idx >= len(grouped[k]) *)
  | Some item => (<[k := S idx]> indices, ordered ++ [item], true)
  end.

(** [while True: ... if not progressed: break]; [fuel] bounds the number of
    passes. *)
Fixpoint round_robin_loop (fuel : nat) (keys : list string)
    (grouped : list (string * list candidate))
    (indices : gmap string nat) (ordered : list candidate) : list candidate :=
  match fuel with
  | O => ordered
  | S fuel' =>
      let '(indices', ordered', progressed) :=
        fold_left (visit_key grouped) keys (indices, ordered, false) in
      if progressed
      then round_robin_loop fuel' keys grouped indices' ordered'
      else ordered'
  end.

Definition reorder_files_for_scan (files : list candidate) : list candidate :=
  let grouped := group_files files in
  let keys := sorted String.leb (map fst grouped) in
  let grouped := map (λ kg, (kg.1, sorted scan_le kg.2)) grouped in
  let indices : gmap string nat := list_to_map (map (λ k, (k, 0%nat)) keys) in
  round_robin_loop (S (length files)) keys grouped indices [].

(** ** The driver *)

Record Args : Type := mkArgs {
  repo_root : string;
  max_tree_chars : Z;
  max_symbols : Z;
  max_top_files : Z;
  max_hotspots : Z;
  max_tree_depth : Z;
  max_file_kb : Z;
  max_file_bytes : Z;
  max_scan_lines : Z;
  max_files : Z;
  max_total_bytes : Z;
  include : list string;
  exclude : list string;
}.

Record FileInfo : Type := mkInfo {
  info_path : string;
  info_size : Z;
  info_mtime : Z;
}.

(** The accumulators of the scan loop of [main]. *)
Record ledger : Type := mkLedger {
  file_infos : list FileInfo;
  symbols : list Symbol;
  line_counts : gmap string Z;
  symbols_truncated : bool;
  total_bytes : Z;
  file_bytes_truncated : bool;
  total_bytes_truncated : bool;
}.

Definition ledger0 : ledger := mkLedger [] [] ∅ false 0 false false.

(** [for rel_path, abs_path in iter_files(...)], with its [break]. *)
Fixpoint collect_files (max_files : Z) (discovered files : list candidate)
    : list candidate * bool :=
  match discovered with
  | [] => (files, false)
  | item :: rest =>
      if Z.of_nat (length files) >=? max_files then (files, true)
      else collect_files max_files rest (files ++ [item])
  end.

Definition should_scan (rel_path : string) : bool :=
  let ext := PyStr.lower (PyStr.splitext_ext rel_path) in
  let base := PyStr.lower (PyStr.basename rel_path) in
  let patterns := assoc_get SYMBOL_PATTERNS ext in
  bool_decide (is_Some patterns) || mem base IMPORTANT_FILENAMES
  || mem ext [".md"; ".yml"; ".yaml"].

(** The symbol part of the loop body. *)
Definition accept_symbols (max_symbols : Z) (file_symbols : list Symbol)
    (symbols : list Symbol) (symbols_truncated : bool) : list Symbol * bool :=
  if negb symbols_truncated && negb (bool_decide (file_symbols = [])) then
    let remaining := max_symbols - Z.of_nat (length symbols) in
    if remaining <=? 0 then (symbols, true)
    else
      let symbols := symbols ++ PyStr.list_upto remaining file_symbols in
      if Z.of_nat (length symbols) >=? max_symbols then (symbols, true)
      else (symbols, symbols_truncated)
  else (symbols, symbols_truncated).

(** The ledger after [scan_file] returned for [rel_path]. *)
Definition record_scan (args : Args) (rel_path : string) (r : scan_result)
    (st : ledger) : ledger :=
  let '(line_count, file_symbols, bytes_read, truncated) := r in
  let total_bytes := total_bytes st + bytes_read in
  let total_bytes_truncated :=
    if truncated && (total_bytes >=? max_total_bytes args) then true
    else total_bytes_truncated st in
  let file_bytes_truncated :=
    if truncated && negb (total_bytes >=? max_total_bytes args) then true
    else file_bytes_truncated st in
  let total_bytes_truncated :=
    if total_bytes >=? max_total_bytes args then true
    else total_bytes_truncated in
  let line_counts :=
    match line_count with
    | Some n => <[rel_path := n]> (line_counts st)
    | None => line_counts st
    end in
  let '(symbols, symbols_truncated) :=
    accept_symbols (max_symbols args) file_symbols (symbols st)
                   (symbols_truncated st) in
  mkLedger (file_infos st) symbols line_counts symbols_truncated total_bytes
           file_bytes_truncated total_bytes_truncated.

(** The body of [for rel_path, abs_path in files_for_scan]. *)
Definition scan_step (args : Args) (os : os_files) (st : ledger)
    (item : candidate) : ledger :=
  let '(rel_path, abs_path) := item in
  match getsize os abs_path, getmtime os abs_path with
  | Some size, Some mtime =>
      let st := mkLedger (file_infos st ++ [mkInfo rel_path size mtime])
                  (symbols st) (line_counts st) (symbols_truncated st)
                  (total_bytes st) (file_bytes_truncated st)
                  (total_bytes_truncated st) in
      if should_scan rel_path && (total_bytes st <? max_total_bytes args) then
        record_scan args rel_path
          (scan_file os rel_path abs_path (max_file_kb args)
             (max_file_bytes args) (max_scan_lines args)
             (max_total_bytes args - total_bytes st))
          st
      else st
  | _, _ => st
  end.

Definition scan_all (args : Args) (os : os_files)
    (files_for_scan : list candidate) : ledger :=
  fold_left (scan_step args os) files_for_scan ledger0.

(** ** Ranker *)

Definition CORE_TOKENS : list string :=
  [ "/src/"; "/sources/"; "/core/"; "/services/"; "/plugins/" ].

Definition core_path (path : string) : bool :=
  let path_norm := PyStr.lower ("/" +:+ path) in
  existsb (λ token, PyStr.contains token path_norm) CORE_TOKENS.

Definition score_file (line_counts : gmap string Z) (path : string)
    : Z * string :=
  let base := PyStr.lower (PyStr.basename path) in
  let score := 0 in
  let reason := "other" in
  let '(score, reason) :=
    if mem base IMPORTANT_FILENAMES then (score + 100, "config")
    else (score, reason) in
  let '(score, reason) :=
    if PyStr.startswith base "readme" then (score + 120, "readme")
    else (score, reason) in
  let '(score, reason) :=
    if mem base ENTRYPOINT_FILENAMES then (score + 60, "entrypoint")
    else (score, reason) in
  let '(score, reason) :=
    if core_path path
    then (score + 15, if String.eqb reason "other" then "core" else reason)
    else (score, reason) in
  match line_counts !! path with
  | Some n =>
      (score + Z.min (n / 50) 40, if n >=? 400 then "large" else reason)
  | None => (score, reason)
  end.

Record TopFile : Type := mkTop { top_path : string; top_reason : string }.
Record Hotspot : Type := mkHot { hot_path : string; hot_signals : list string }.

(** The order of the keys [(-x[0], x[1])]. *)
Definition neg_then_path_le (a b : Z * string) : bool :=
  (- a.1 <? - b.1) || ((- a.1 =? - b.1) && String.leb a.2 b.2).

Definition top_files_of (args : Args) (st : ledger) : list TopFile :=
  let scored :=
    map (λ info, let '(score, reason) := score_file (line_counts st) (info_path info) in
                 (score, info_path info, reason)) (file_infos st) in
  let scored :=
    sorted (λ a b, neg_then_path_le (a.1.1, a.1.2) (b.1.1, b.1.2)) scored in
  map (λ x, mkTop x.1.2 x.2) (PyStr.list_upto (max_top_files args) scored).

(** The order of the keys [(s["path"], s["line"], s["name"])]. *)
Definition symbol_le (a b : Symbol) : bool :=
  String.ltb (sym_path a) (sym_path b)
  || (String.eqb (sym_path a) (sym_path b)
      && ((sym_line a <? sym_line b)
          || ((sym_line a =? sym_line b) && String.leb (sym_name a) (sym_name b)))).

(** The hotspot loop, with its [break]. *)
Fixpoint hotspots_loop (max_hotspots : Z) (items : list (string * Z))
    (hotspots : list Hotspot) : list Hotspot :=
  match items with
  | [] => hotspots
  | (path, count) :: rest =>
      if Z.of_nat (length hotspots) >=? max_hotspots then hotspots
      else
        let signals :=
          (if count >=? 400 then ["large"] else [])
          ++ (if core_path path then ["core"] else []) in
        hotspots_loop max_hotspots rest
          (match signals with
           | [] => hotspots
           | _ => hotspots ++ [mkHot path signals]
           end)
  end.

Definition hotspots_of (args : Args) (st : ledger) : list Hotspot :=
  hotspots_loop (max_hotspots args)
    (sorted (λ a b : string * Z, neg_then_path_le (a.2, a.1) (b.2, b.1))
            (map_to_list (line_counts st)))
    [].

(** ** Report assembler *)

Definition note (flag : bool) (text : string) : list string :=
  if flag then [text] else [].

Record Output : Type := mkOutput {
  out_repo_root : string;
  out_generated_at : string;
  out_git_head : string;
  out_tree : string;
  out_top_files : list TopFile;
  out_symbols : list Symbol;
  out_hotspots : list Hotspot;
  out_notes : list string;
}.

(** The world [main] runs in: the directory structure below the root, the
    files, the lines of [.gitignore], the answer of [git rev-parse HEAD]
    (empty on failure) and the clock. *)
Record World : Type := mkWorld {
  w_root : entry;
  w_os : os_files;
  w_gitignore : option (list string);
  w_git_head : string;
  w_now : string;
}.

(** [main], on the path where [repo_root] is a directory. *)
Definition main (args : Args) (w : World) : Output :=
  let git_head := w_git_head w in
  let '(gitignore_patterns, gitignore_neg) := load_gitignore (w_gitignore w) in
  let f := mkFilters DEFAULT_EXCLUDED_DIRS (exclude args) (include args)
                     gitignore_patterns gitignore_neg in
  let '(files, files_truncated) :=
    collect_files (max_files args) (iter_files (repo_root args) f (w_root w)) [] in
  let files_for_scan := reorder_files_for_scan files in
  let st := scan_all args (w_os w) files_for_scan in
  let '(tree, tree_truncated) :=
    build_tree (w_root w) (max_tree_depth args) (max_tree_chars args) f in
  let top_files := top_files_of args st in
  let symbols := sorted symbol_le (symbols st) in
  let hotspots := hotspots_of args st in
  let notes :=
    note tree_truncated "tree truncated"
    ++ note (symbols_truncated st) "symbols truncated"
    ++ note files_truncated "files truncated"
    ++ note (file_bytes_truncated st) "file bytes truncated"
    ++ note (total_bytes_truncated st) "total bytes truncated"
    ++ note (Z.of_nat (length top_files) >=? max_top_files args) "top_files truncated"
    ++ note (Z.of_nat (length hotspots) >=? max_hotspots args) "hotspots truncated"
    ++ note (negb (bool_decide (gitignore_patterns = []))) ".gitignore patterns applied (basic)"
    ++ note (String.eqb git_head "") "git head unavailable" in
  mkOutput (repo_root args) (w_now w) git_head tree top_files
           (PyStr.list_upto (max_symbols args) symbols) hotspots notes.

(** * Vocabulary of the properties *)

(** The counters of a state: everything but the symbol collection. *)
Definition counters (st : scan_state) : Z * Z * bool :=
  (s_line_count st, s_bytes_read st, s_truncated st).

(** Either the patterns are switched off or there is room for a symbol. *)
Definition room (st : scan_state) : Prop :=
  s_patterns st = None ∨ Z.of_nat (length (s_symbols st)) < MAX_SYMBOLS_PER_FILE.

(** Every symbol of the list has a kind of the closed set. *)
Definition closed_kinds (symbols : list Symbol) : Prop :=
  Forall (λ s, mem (sym_kind s) KINDS = true) symbols.

(** A file system in which every path is a readable file with these lines. *)
Definition one_file (size : Z) (lines : list string) : os_files :=
  mkOs (λ _, Some size) (λ _, Some 0) (λ _, Some lines).

(** A line of text with its line break. *)
Definition ln (s : string) : string := s +:+ newline_str.

(** The three counters of a result of [scan_file]. *)
Definition result_counters (r : scan_result) : option Z * Z * bool :=
  (r.1.1.1, r.1.2, r.2).

(** Step 1 of the filter: a segment of the path is an excluded directory. *)
Definition in_excluded_dir (rel_path : string) (exclude_dirs : list string) : bool :=
  existsb (λ part, mem part exclude_dirs) (PyStr.split "/" rel_path).

(** Some pattern of the list matches the path. *)
Definition any_match (patterns : list string) (rel_path : string) (is_dir : bool) : bool :=
  existsb (λ p, match_pattern p rel_path is_dir) patterns.

(** The reason the name of the file earns, before the size is looked at. *)
Definition earns_readme (path : string) : bool :=
  PyStr.startswith (PyStr.lower (PyStr.basename path)) "readme".

(** The name is an important file name that does not start with [readme]. *)
Definition earns_config (path : string) : bool :=
  mem (PyStr.lower (PyStr.basename path)) IMPORTANT_FILENAMES
  && negb (earns_readme path).

(** Two ledgers that differ at most in the list of stat'd files. *)
Definition same_scans (st st' : ledger) : Prop :=
  symbols st = symbols st' ∧ line_counts st = line_counts st'
  ∧ symbols_truncated st = symbols_truncated st'
  ∧ total_bytes st = total_bytes st'
  ∧ file_bytes_truncated st = file_bytes_truncated st'
  ∧ total_bytes_truncated st = total_bytes_truncated st'.

(** Every line of every candidate that can be read has at most [L] bytes. *)
Definition lines_within (os : os_files) (files : list candidate) (L : Z) : Prop :=
  ∀ item lines, item ∈ files → read_lines os item.2 = Some lines →
    Forall (λ line, PyStr.len line ≤ L) lines.

(** A line of 100 bytes. *)
Definition long_line : string := String.concat "" (replicate 100 "x").

(** The default caps, but one byte per file and ten bytes in total. *)
Definition tight_args : Args :=
  mkArgs "/repo" 4000 200 50 20 4 512 1 4000 5000 10 [] [].

(** The filters [main] computes. *)
Definition filters_of (args : Args) (w : World) : filters :=
  let '(gitignore_patterns, gitignore_neg) := load_gitignore (w_gitignore w) in
  mkFilters DEFAULT_EXCLUDED_DIRS (exclude args) (include args)
            gitignore_patterns gitignore_neg.

(** The candidates in the order [main] scans them. *)
Definition files_for_scan (args : Args) (w : World) : list candidate :=
  reorder_files_for_scan
    (collect_files (max_files args)
       (iter_files (repo_root args) (filters_of args w) (w_root w)) []).1.

(** The number of symbols [scan_file] returns for [item] when the scan loop
    reaches it with ledger [st]; zero when the file is not scanned. *)
Definition step_symbols (args : Args) (os : os_files) (st : ledger)
    (item : candidate) : Z :=
  match getsize os item.2, getmtime os item.2 with
  | Some _, Some _ =>
      if should_scan item.1 && (total_bytes st <? max_total_bytes args) then
        Z.of_nat (length (scan_file os item.1 item.2 (max_file_kb args)
                            (max_file_bytes args) (max_scan_lines args)
                            (max_total_bytes args - total_bytes st)).1.1.2)
      else 0
  | _, _ => 0
  end.

(** The number of symbols the scans of a run return, before the global cap
    is applied. *)
Fixpoint returned_symbols (args : Args) (os : os_files) (st : ledger)
    (files : list candidate) : Z :=
  match files with
  | [] => 0
  | item :: rest =>
      step_symbols args os st item
      + returned_symbols args os (scan_step args os st item) rest
  end.

(** The declarations of a file: its lines that are offered to the pattern
    table of its extension and match a pattern. *)
Definition declarations (rel_path : string) (lines : list string) : list string :=
  let table :=
    default [] (assoc_get SYMBOL_PATTERNS
                  (PyStr.lower (PyStr.splitext_ext rel_path))) in
  filter (λ line, skipped_line line = false ∧ is_Some (first_match table line))
         lines.

(** The number of declarations in the candidate files. *)
Definition true_symbol_count (os : os_files) (files : list candidate) : Z :=
  foldr (λ item n,
           Z.of_nat (length (declarations item.1
                               (default [] (read_lines os item.2)))) + n)
        0 files.

(** The ledger either reports the truncation or holds every symbol returned
    so far, [n] of them, below the cap. *)
Definition symbols_inv (max_symbols : Z) (st : ledger) (n : Z) : Prop :=
  symbols_truncated st = true
  ∨ (Z.of_nat (length (symbols st)) = n ∧ (n = 0 ∨ n < max_symbols)).

(** A repository with the single file [m.py], holding [n] function
    definitions. *)
Definition defs_world (n : nat) : World :=
  mkWorld (Dir "" (Some [File "m.py"]))
          (one_file 300 (replicate n (ln "def f():")))
          None "" "2026-01-01T00:00:00Z".

(** The default caps, but [n] symbols. *)
Definition args_max_symbols (n : Z) : Args :=
  mkArgs "/repo" 4000 n 50 20 4 512 524288 4000 5000 20971520 [] [].

(** A rendered line holds no line break. *)
Definition newline_free (line : string) : Prop := newline ∉ PyStr.chars line.

(** A line break lies within the first [max_chars] characters of the text,
    after its first character. *)
Definition break_within (text : string) (max_chars : Z) : Prop :=
  ∃ i : nat, (0 < i)%nat ∧ Z.of_nat i < max_chars
             ∧ PyStr.chars text !! i = Some newline.

(** The text is a whole number of the lines, at least one and not all. *)
Definition whole_lines (lines : list string) (text : string) : Prop :=
  ∃ k : nat, (0 < k < length lines)%nat
             ∧ text = PyStr.join newline_str (take k lines).

(** A small repository: two top-level files and a source directory. *)
Definition small_root : entry :=
  Dir "" (Some [File "setup.py"; Dir "src" (Some [File "engine.py"]);
                File "README.md"]).

(** A repository with two files and no directory. *)
Definition two_files_root : entry :=
  Dir "" (Some [File "setup.py"; File "README.md"]).

(** The filters of a run without globs and without [.gitignore]. *)
Definition default_filters : filters :=
  mkFilters DEFAULT_EXCLUDED_DIRS [] [] [] [].

(** The candidates of a top-level group, in the order of discovery. *)
Definition group_of (files : list candidate) (k : string) : list candidate :=
  filter (λ item, group_key item.1 = k) files.

(** [grouped[k]], or the empty list for an absent key. *)
Definition group_at (grouped : list (string * list candidate)) (k : string)
    : list candidate :=
  default [] (assoc_get grouped k).

(** Round [r]: the [r]-th element of every group that has one, in the order
    of the groups. *)
Definition round {A} (groups : list (list A)) (r : nat) : list A :=
  omap (λ g, g !! r) groups.

(** The length of the longest group. *)
Definition max_length {A} (groups : list (list A)) : nat :=
  foldr (λ g m, length g `max` m)%nat 0%nat groups.

(** The rounds one after the other, while a group has an element left. *)
Definition interleave {A} (groups : list (list A)) : list A :=
  concat (map (round groups) (seq 0 (max_length groups))).

(** The keys of the groups in the order the loop visits them. *)
Definition group_keys (files : list candidate) : list string :=
  sorted String.leb (group_files files).*1.

(** The groups in that order, each in its scan order. *)
Definition scan_groups (files : list candidate) : list (list candidate) :=
  map (λ k, sorted scan_le (group_of files k)) (group_keys files).

(** [a] is scanned no later than [b] inside a group: extension priority,
    then name priority, then path. *)
Definition before (a b : candidate) : Prop :=
  (ext_priority a.1).1 < (ext_priority b.1).1
  ∨ ((ext_priority a.1).1 = (ext_priority b.1).1
     ∧ (name_priority a.1 < name_priority b.1
        ∨ (name_priority a.1 = name_priority b.1 ∧ String.le a.1 b.1))).

(** The candidate for a relative path below [/repo]. *)
Definition cand (rel : string) : candidate := (rel, path_join "/repo" rel).

(** The repository of the scenario: a ten-line [README.md], a 500-line
    [src/core/engine.py] with [class Engine] on line 1 and [def run] on line
    50, and [node_modules/x.js]. *)
Definition scenario_root : entry :=
  Dir "" (Some [File "README.md"; Dir "node_modules" (Some [File "x.js"]);
                Dir "src" (Some [Dir "core" (Some [File "engine.py"])])]).

(** The 500 lines of [engine.py]. *)
Definition engine_lines : list string :=
  [ln "class Engine:"] ++ replicate 48 (ln "    pass")
  ++ [ln "    def run(self):"] ++ replicate 450 (ln "        pass").

(** Every file has 4096 bytes; the other files hold ten lines of text. *)
Definition scenario_os : os_files :=
  mkOs (λ _, Some 4096) (λ _, Some 0)
       (λ p, if String.eqb p "/repo/src/core/engine.py" then Some engine_lines
             else Some (replicate 10 (ln "text"))).

(** The scenario, with a commit hash and a clock. *)
Definition scenario : World :=
  mkWorld scenario_root scenario_os None "0f3c" "2026-01-01T00:00:00Z".

(** The arguments of a run with every default. *)
Definition default_args : Args :=
  mkArgs "/repo" DEFAULT_MAX_TREE_CHARS DEFAULT_MAX_SYMBOLS
         DEFAULT_MAX_TOP_FILES DEFAULT_MAX_HOTSPOTS DEFAULT_MAX_TREE_DEPTH
         DEFAULT_MAX_FILE_KB DEFAULT_MAX_FILE_BYTES DEFAULT_MAX_SCAN_LINES
         DEFAULT_MAX_FILES DEFAULT_MAX_TOTAL_BYTES [] [].

(** The pattern table [scan_file] looks up for a path. *)
Definition table_of (rel_path : string) : option (list (Re.regex * option string)) :=
  assoc_get SYMBOL_PATTERNS (PyStr.lower (PyStr.splitext_ext rel_path)).

(** The symbol [s] was read off line number [sym_line s] of [lines]: that
    line is offered to the patterns of [table] and its first match gives the
    name and the kind. *)
Definition read_off (rel_path : string) (table : list (Re.regex * option string))
    (lines : list string) (s : Symbol) : Prop :=
  sym_path s = rel_path
  ∧ 1 ≤ sym_line s
  ∧ ∃ line, lines !! Z.to_nat (sym_line s - 1) = Some line
            ∧ skipped_line line = false
            ∧ first_match table line = Some (sym_name s, sym_kind s).

(** The state of the loop after the lines [seen]: the counter is their
    number, the table is the initial one or switched off, and every symbol
    was read off a line seen so far, in increasing line order. *)
Definition scan_inv (rel_path : string) (table : option (list (Re.regex * option string)))
    (seen : list string) (st : scan_state) : Prop :=
  s_line_count st = Z.of_nat (length seen)
  ∧ (s_patterns st = None ∨ s_patterns st = table)
  ∧ Forall (λ s, read_off rel_path (default [] table) seen s
                 ∧ sym_line s ≤ Z.of_nat (length seen)) (s_symbols st)
  ∧ StronglySorted (λ a b, sym_line a < sym_line b) (s_symbols st).

(** The number of bytes of a list of lines. *)
Definition total_len (lines : list string) : Z :=
  foldr (λ line n, PyStr.len line + n) 0 lines.

(** The byte counter is within both byte budgets, or nothing was counted. *)
Definition within_budgets (mfb rem : Z) (st : scan_state) : Prop :=
  s_bytes_read st = 0 ∨ (s_bytes_read st ≤ mfb ∧ s_bytes_read st ≤ rem).

(** [rel] is the relative path of a file of the directory structure [e],
    whose own relative path is [rel_dir]: the file is an entry of [e] or of
    a directory below it, no filter rule excludes the file, and no filter
    rule excludes one of the directories between [e] and the file. *)
Inductive kept_below (f : filters) : entry → string → string → Prop :=
| kept_file dir children rel_dir name :
    File name ∈ children →
    excluded f (child_rel rel_dir name) false = false →
    kept_below f (Dir dir (Some children)) rel_dir (child_rel rel_dir name)
| kept_dir dir children rel_dir sub rel :
    sub ∈ children → isdir sub = true →
    excluded f (child_rel rel_dir (entry_name sub)) true = false →
    kept_below f sub (child_rel rel_dir (entry_name sub)) rel →
    kept_below f (Dir dir (Some children)) rel_dir rel.

(** A stripped line that states a rule: not blank and not a comment. *)
Definition is_rule (line : string) : Prop :=
  line ≠ "" ∧ PyStr.startswith line "#" = false.

(** The entry of [file_infos] for a candidate, when both [getsize] and
    [getmtime] answer. *)
Definition stat (os : os_files) (item : candidate) : option FileInfo :=
  match getsize os item.2, getmtime os item.2 with
  | Some size, Some mtime => Some (mkInfo item.1 size mtime)
  | _, _ => None
  end.

(** What the ledger may hold for the line count [n] of [path]. *)
Definition counted (args : Args) (os : os_files) (files : list candidate)
    (path : string) (n : Z) : Prop :=
  0 ≤ n ≤ Z.max (max_scan_lines args) 0 + 1
  ∧ should_scan path = true
  ∧ ∃ abs_path lines,
      (path, abs_path) ∈ files
      ∧ is_Some (getsize os abs_path) ∧ is_Some (getmtime os abs_path)
      ∧ read_lines os abs_path = Some lines
      ∧ n ≤ Z.of_nat (length lines).

(** The running total is not negative, and the flag is set exactly when a
    positive cap has been reached. *)
Definition total_inv (args : Args) (st : ledger) : Prop :=
  0 ≤ total_bytes st
  ∧ total_bytes_truncated st
    = bool_decide (0 < max_total_bytes args ≤ total_bytes st).

(** The base name is an important file name, starts with [readme] or is an
    entry-point file name. *)
Definition named (path : string) : bool :=
  let base := PyStr.lower (PyStr.basename path) in
  mem base IMPORTANT_FILENAMES || PyStr.startswith base "readme"
  || mem base ENTRYPOINT_FILENAMES.

(** The line count recorded for [path], or 0. *)
Definition lines_of (line_counts : gmap string Z) (path : string) : Z :=
  default 0 (line_counts !! path).

(** The order of [top_files]: higher score first, then the path. *)
Definition ranked_before (line_counts : gmap string Z) (a b : string) : Prop :=
  (score_file line_counts b).1 < (score_file line_counts a).1
  ∨ ((score_file line_counts a).1 = (score_file line_counts b).1
     ∧ String.le a b).

(** The length of the slice [l[:n]] of a list of length [len]. *)
Definition slice_length (n : Z) (len : nat) : Z :=
  if 0 <=? n then Z.min n (Z.of_nat len) else Z.max (Z.of_nat len + n) 0.

(** The signals of the hotspot loop. *)
Definition signals_of (path : string) (count : Z) : list string :=
  (if count >=? 400 then ["large"] else [])
  ++ (if core_path path then ["core"] else []).

(** A hotspot of the ledger: a scanned path with its signals, of which there
    is at least one. *)
Definition hotspot_of (line_counts : gmap string Z) (h : Hotspot) : Prop :=
  ∃ count, line_counts !! hot_path h = Some count
           ∧ hot_signals h = signals_of (hot_path h) count
           ∧ (400 ≤ count ∨ core_path (hot_path h) = true).

(** The order of [hotspots]: more lines first, then the path. *)
Definition hotter (line_counts : gmap string Z) (a b : Hotspot) : Prop :=
  lines_of line_counts (hot_path b) < lines_of line_counts (hot_path a)
  ∨ (lines_of line_counts (hot_path a) = lines_of line_counts (hot_path b)
     ∧ String.le (hot_path a) (hot_path b)).

(** The order of the keys [(-k[0], k[1])] as a relation. *)
Definition key_before {A} (key : A → Z * string) (a b : A) : Prop :=
  (key b).1 < (key a).1
  ∨ ((key a).1 = (key b).1 ∧ String.le (key a).2 (key b).2).

(** The notes a report can carry, in the order [main] appends them. *)
Definition ALL_NOTES : list string :=
  [ "tree truncated"; "symbols truncated"; "files truncated";
    "file bytes truncated"; "total bytes truncated"; "top_files truncated";
    "hotspots truncated"; ".gitignore patterns applied (basic)";
    "git head unavailable" ].

(** The order of the reported symbols: path, then line, then name. *)
Definition symbol_before (a b : Symbol) : Prop :=
  (String.le (sym_path a) (sym_path b) ∧ sym_path a ≠ sym_path b)
  ∨ (sym_path a = sym_path b
     ∧ (sym_line a < sym_line b
        ∨ (sym_line a = sym_line b ∧ String.le (sym_name a) (sym_name b)))).

(** The symbol has a kind of the closed set and was read off a line of a
    readable candidate with its path. *)
Definition declared (os : os_files) (files : list candidate) (s : Symbol)
    : Prop :=
  mem (sym_kind s) KINDS = true
  ∧ ∃ abs_path lines,
      (sym_path s, abs_path) ∈ files
      ∧ read_lines os abs_path = Some lines
      ∧ read_off (sym_path s) (default [] (table_of (sym_path s))) lines s.

(** The directory structure [e], whose own relative path is [rel_dir] and
    whose entries are at level [depth], holds at level [level] an entry
    called [name], a directory when [is_dir] is set: no filter rule excludes
    the entry, and the directories between [e] and the entry are entries
    that no filter rule excludes. *)
Inductive listed (f : filters)
    : entry → string → Z → Z → string → bool → Prop :=
| listed_here dir children rel_dir depth sub :
    sub ∈ children →
    excluded f (child_rel rel_dir (entry_name sub)) (isdir sub) = false →
    listed f (Dir dir (Some children)) rel_dir depth
           depth (entry_name sub) (isdir sub)
| listed_below dir children rel_dir depth sub level name is_dir :
    sub ∈ children → isdir sub = true →
    excluded f (child_rel rel_dir (entry_name sub)) true = false →
    listed f sub (child_rel rel_dir (entry_name sub)) (depth + 1)
           level name is_dir →
    listed f (Dir dir (Some children)) rel_dir depth level name is_dir.

(** The line of the tree for an entry: two spaces per level, the name, and
    a slash after a directory. *)
Definition tree_line (level : Z) (name : string) (is_dir : bool) : string :=
  if is_dir then PyStr.repeat "  " level +:+ name +:+ "/"
  else PyStr.repeat "  " level +:+ name.

(** The default caps, but three bytes per file and a thousand in total. *)
Definition small_file_cap : Args :=
  mkArgs "/repo" 4000 200 50 20 4 512 3 4000 5000 1000 [] [].

(** A candidate with more than [max_file_bytes] bytes of lines. *)
Definition over_file_cap (args : Args) (os : os_files) (item : candidate) : Prop :=
  ∃ lines, read_lines os item.2 = Some lines
           ∧ max_file_bytes args < total_len lines.

(** The paths of the worked example of the scheduler. *)
Definition fairness_paths : list string :=
  [ "README.md"; "docs/guide.md"; "src/app.ts"; "src/core/session.ts";
    "src/model.swift"; "tools/run.py"; "tools/registry.py"; "tools/notes.txt" ].

(** The same paths in the order the scheduler gives them. *)
Definition fairness_order : list string :=
  [ "README.md"; "docs/guide.md"; "src/model.swift"; "tools/registry.py";
    "src/core/session.ts"; "tools/run.py"; "src/app.ts"; "tools/notes.txt" ].

(** * Properties *)

(** ** Properties of the file scanner *)

Section scanner.
Context (rel_path : string).
Context (max_file_bytes max_scan_lines remaining : Z).

Local Abbreviation scan := (scan_lines rel_path max_file_bytes max_scan_lines remaining).

Lemma match_line_counters line st :
  counters (match_line rel_path line st) = counters st.
Proof.
  unfold match_line.
  destruct (negb _); [done|]. destruct (skipped_line _); [done|].
  destruct (first_match _ _) as [[name kind]|]; done.
Qed.

Lemma match_line_off line st :
  s_patterns st = None → match_line rel_path line st = st.
Proof. unfold match_line. by intros ->. Qed.

Lemma match_line_room line st :
  room st → room (match_line rel_path line st).
Proof.
  intros Hroom. unfold match_line.
  destruct (negb _); [done|]. destruct (skipped_line _); [done|].
  destruct (first_match _ _) as [[name kind]|]; [|done].
  unfold room; cbn [s_patterns s_symbols].
  destruct (Z.of_nat _ >=? MAX_SYMBOLS_PER_FILE) eqn:Hcap; [by left|].
  right. lia.
Qed.

Lemma match_line_symbols line st :
  s_symbols st `prefix_of` s_symbols (match_line rel_path line st).
Proof.
  unfold match_line.
  destruct (negb _); [done|]. destruct (skipped_line _); [done|].
  destruct (first_match _ _) as [[name kind]|]; [|done].
  by apply prefix_app_r.
Qed.

Lemma match_line_length line st :
  room st →
  Z.of_nat (length (s_symbols st)) ≤ MAX_SYMBOLS_PER_FILE →
  Z.of_nat (length (s_symbols (match_line rel_path line st)))
    ≤ MAX_SYMBOLS_PER_FILE.
Proof.
  intros Hroom Hlen. unfold match_line.
  destruct (negb (truthy _)) eqn:Htruthy; [done|].
  destruct (skipped_line _); [done|].
  destruct (first_match _ _) as [[name kind]|]; [|done].
  cbn [s_symbols]. rewrite length_app. cbn [length].
  destruct Hroom as [Hoff|Hlt]; [|lia].
  by rewrite Hoff in Htruthy.
Qed.

(** The loop keeps the bound on the number of symbols. *)
Lemma scan_lines_length lines st :
  room st →
  Z.of_nat (length (s_symbols st)) ≤ MAX_SYMBOLS_PER_FILE →
  Z.of_nat (length (s_symbols (scan lines st))) ≤ MAX_SYMBOLS_PER_FILE.
Proof.
  revert st. induction lines as [|line rest IH]; intros st Hroom Hlen; [done|].
  cbn [scan_lines s_line_count s_bytes_read s_patterns s_symbols s_truncated].
  repeat case_match; try done.
  apply IH.
  - by apply match_line_room.
  - by apply match_line_length.
Qed.

(** The counters depend neither on the pattern table, nor on the symbols,
    nor on the name of the file. *)
Lemma scan_lines_counters rel_path' lines st st' :
  counters st = counters st' →
  counters (scan lines st)
  = counters (scan_lines rel_path' max_file_bytes max_scan_lines remaining
                lines st').
Proof.
  revert st st'. induction lines as [|line rest IH]; intros st st' Heq; [done|].
  injection Heq as Hl Hb Ht.
  cbn [scan_lines s_line_count s_bytes_read s_patterns s_symbols s_truncated].
  rewrite Hl, Hb, Ht.
  repeat case_match; try done.
  apply IH. rewrite match_line_counters.
  unfold match_line.
  destruct (negb _); [done|]. destruct (skipped_line _); [done|].
  destruct (first_match _ _) as [[name kind]|]; done.
Qed.

(** Symbols are only ever appended. *)
Lemma scan_lines_symbols lines st :
  s_symbols st `prefix_of` s_symbols (scan lines st).
Proof.
  revert st. induction lines as [|line rest IH]; intros st; [done|].
  cbn [scan_lines s_line_count s_bytes_read s_patterns s_symbols s_truncated].
  repeat case_match; try done.
  etrans; [|apply IH]. apply (match_line_symbols line (mkScan _ _ _ _ _)).
Qed.

Lemma scan_lines_app_symbols pre post st :
  s_symbols (scan pre st) `prefix_of` s_symbols (scan (pre ++ post) st).
Proof.
  revert st. induction pre as [|line rest IH]; intros st.
  - apply scan_lines_symbols.
  - cbn [app scan_lines s_line_count s_bytes_read s_patterns s_symbols s_truncated].
    repeat case_match; first [done | apply IH].
Qed.

End scanner.

Section scanner2.
Context (rel_path : string).
Context (max_file_bytes max_scan_lines remaining : Z).

Local Abbreviation scan := (scan_lines rel_path max_file_bytes max_scan_lines remaining).

(** A file is read at most one line beyond the smaller of its two byte
    budgets. *)
Lemma scan_lines_bytes L lines st :
  Forall (λ line, PyStr.len line ≤ L) lines →
  0 ≤ L →
  s_bytes_read st ≤ Z.max remaining 0 →
  s_bytes_read (scan lines st) ≤ Z.max remaining 0 + L.
Proof.
  intros Hlines HL. revert st.
  induction Hlines as [|line rest Hline _ IH]; intros st Hst; [cbn; lia|].
  cbn [scan_lines s_line_count s_bytes_read s_patterns s_symbols s_truncated].
  repeat case_match; cbn [set_truncated s_bytes_read]; try lia.
  apply IH.
  pose proof (match_line_counters rel_path line
    (mkScan (s_patterns st) (s_symbols st) (s_line_count st + 1)
            (s_bytes_read st + PyStr.len line) (s_truncated st))) as Hc.
  injection Hc as _ -> _. cbn. lia.
Qed.

(** The line counter stops one past the line cap. *)
Lemma scan_lines_line_count lines st :
  s_line_count st ≤ Z.max max_scan_lines 0 →
  s_line_count (scan lines st) ≤ Z.max max_scan_lines 0 + 1.
Proof.
  revert st. induction lines as [|line rest IH]; intros st Hst; [cbn; lia|].
  cbn [scan_lines s_line_count s_bytes_read s_patterns s_symbols s_truncated].
  repeat case_match; cbn [set_truncated s_line_count]; try lia.
  apply IH.
  pose proof (match_line_counters rel_path line
    (mkScan (s_patterns st) (s_symbols st) (s_line_count st + 1)
            (s_bytes_read st + PyStr.len line) (s_truncated st))) as Hc.
  injection Hc as -> _ _. cbn. lia.
Qed.

End scanner2.

(** *** Kinds *)

Lemma normalize_kind_closed kind : mem (normalize_kind kind) KINDS = true.
Proof.
  unfold normalize_kind.
  destruct (mem kind KINDS) eqn:Hin; cbn [negb]; [done|].
  repeat case_match; reflexivity.
Qed.

Lemma first_match_kind patterns line name kind :
  first_match patterns line = Some (name, kind) → mem kind KINDS = true.
Proof.
  induction patterns as [|[pattern k] rest IH]; [done|].
  cbn [first_match]. destruct (Re.pmatch pattern line) as [m|]; [|done].
  destruct k; intros [= _ <-]; apply normalize_kind_closed.
Qed.

Lemma match_line_kinds rel_path line st :
  closed_kinds (s_symbols st) →
  closed_kinds (s_symbols (match_line rel_path line st)).
Proof.
  intros Hst. unfold match_line.
  destruct (negb _); [done|]. destruct (skipped_line _); [done|].
  destruct (first_match _ _) as [[name kind]|] eqn:Hm; [|done].
  apply Forall_app; split; [done|].
  apply Forall_singleton. by eapply first_match_kind.
Qed.

Lemma scan_lines_kinds rel_path mfb msl rem lines st :
  closed_kinds (s_symbols st) →
  closed_kinds (s_symbols (scan_lines rel_path mfb msl rem lines st)).
Proof.
  revert st. induction lines as [|line rest IH]; intros st Hst; [done|].
  cbn [scan_lines s_line_count s_bytes_read s_patterns s_symbols s_truncated].
  repeat case_match; try done.
  apply IH. by apply match_line_kinds.
Qed.

(** Every symbol [scan_file] returns has a kind of the closed set. *)
Lemma scan_file_kinds os rel_path abs_path kb mfb msl rem :
  closed_kinds (scan_file os rel_path abs_path kb mfb msl rem).1.1.2.
Proof.
  unfold scan_file. repeat case_match; cbn; try apply Forall_nil_2.
  apply scan_lines_kinds, Forall_nil_2.
Qed.

(** C10. A single file yields at most [MAX_SYMBOLS_PER_FILE] = 25 symbols,
    whatever the caps passed to [scan_file]; the line count, the byte count
    and the truncation flag it returns are those of a scan that collects no
    symbols at all; and once the scan of a prefix of the lines has collected
    25 symbols, the remaining lines add none. *)
Theorem scan_file_symbol_cap :
  MAX_SYMBOLS_PER_FILE = 25
  ∧ (∀ os rel_path abs_path kb mfb msl rem,
       Z.of_nat (length (scan_file os rel_path abs_path kb mfb msl rem).1.1.2)
         ≤ MAX_SYMBOLS_PER_FILE)
  ∧ (∀ os rel_path rel_path' abs_path kb mfb msl rem,
       result_counters (scan_file os rel_path abs_path kb mfb msl rem)
       = result_counters (scan_file os rel_path' abs_path kb mfb msl rem))
  ∧ (∀ rel_path mfb msl rem table pre post,
       Z.of_nat (length (s_symbols
         (scan_lines rel_path mfb msl rem pre (mkScan table [] 0 0 false))))
         = MAX_SYMBOLS_PER_FILE →
       s_symbols (scan_lines rel_path mfb msl rem (pre ++ post)
                    (mkScan table [] 0 0 false))
       = s_symbols (scan_lines rel_path mfb msl rem pre
                    (mkScan table [] 0 0 false))).
Proof.
  split; [done|]. split; [|split].
  - intros. unfold scan_file. repeat case_match; cbn; try done.
    apply scan_lines_length; [by right|done].
  - intros. unfold scan_file, result_counters.
    destruct (_ >? _); [done|]. destruct (read_lines _ _) as [lines|]; [|done].
    cbn [fst snd].
    pose proof (scan_lines_counters rel_path mfb msl rem rel_path' lines
      (mkScan (assoc_get SYMBOL_PATTERNS (PyStr.lower (PyStr.splitext_ext rel_path))) [] 0 0 false)
      (mkScan (assoc_get SYMBOL_PATTERNS (PyStr.lower (PyStr.splitext_ext rel_path'))) [] 0 0 false)
      eq_refl) as H.
    unfold counters in H. injection H as H1 H2 H3. congruence.
  - intros rel_path mfb msl rem table pre post Hfull.
    symmetry. apply prefix_length_eq.
    + apply scan_lines_app_symbols.
    + pose proof (scan_lines_length rel_path mfb msl rem (pre ++ post)
        (mkScan table [] 0 0 false)) as Hle.
      cbn in Hle. specialize (Hle (or_intror eq_refl)).
      lia.
Qed.

Lemma scan_file_symbol_cap_witness :
  let lines := replicate 25 (ln "def f():") in
  let start := mkScan (Some Patterns.py) [] 0 0 false in
  Z.of_nat (length (s_symbols (scan_lines "m.py" 1000 1000 1000 lines start)))
    = MAX_SYMBOLS_PER_FILE
  ∧ s_symbols (scan_lines "m.py" 1000 1000 1000 (lines ++ [ln "def g():"]) start)
    = s_symbols (scan_lines "m.py" 1000 1000 1000 lines start).
Proof.
  split; [vm_compute; reflexivity|].
  apply (proj2 (proj2 (proj2 scan_file_symbol_cap))).
  vm_compute; reflexivity.
Defined.

(** C5. A file of five lines scanned with a line cap of three: [scan_file]
    returns the line count four, and [main] records four for the file. *)
Theorem scan_file_line_count_overshoot :
  let os := one_file 10 (ln <$> ["a"; "b"; "c"; "d"; "e"]) in
  let args := mkArgs "/repo" 4000 200 50 20 4 512 524288 3 5000 20971520 [] [] in
  (scan_file os "notes.md" "/repo/notes.md" 512 524288 3 20971520).1.1.1 = Some 4
  ∧ line_counts (scan_all args os [("notes.md", "/repo/notes.md")]) !! "notes.md"
    = Some 4.
Proof. split; vm_compute; reflexivity. Qed.

(** C3. A Swift actor declaration is reported with kind [typealias]: the
    keyword is first rewritten to [class], which the chain of tests that
    follows does not know and sends to its last branch. *)
Theorem scan_file_actor_kind :
  normalize_kind "actor" = "typealias"
  ∧ (scan_file (one_file 14 [ln "actor Store {"]) "Sources/Store.swift"
       "/repo/Sources/Store.swift" 512 524288 4000 20971520).1.1.2
    = [mkSymbol "Store" "typealias" "Sources/Store.swift" 1].
Proof. split; vm_compute; reflexivity. Qed.

Lemma should_exclude_steps rel_path is_dir dirs ex inc gi neg :
  should_exclude rel_path is_dir dirs ex inc gi neg =
    if in_excluded_dir rel_path dirs || any_match ex rel_path is_dir then true
    else if any_match gi rel_path is_dir
    then negb (any_match neg rel_path is_dir)
    else match inc with
         | [] => false
         | _ => negb (any_match inc rel_path is_dir)
         end.
Proof.
  unfold should_exclude, in_excluded_dir, any_match.
  destruct (existsb _ (PyStr.split _ _)); [done|].
  destruct (existsb _ ex); [done|]. cbn [orb].
  destruct gi as [|g gi]; [done|].
  destruct (existsb _ (g :: gi)); [|done].
  destruct neg as [|n neg]; [done|].
  by destruct (existsb _ (n :: neg)).
Qed.

(** C8. When a gitignore pattern matches a path that neither lies under an
    excluded directory nor matches an exclude glob, the path is excluded
    exactly when no negation pattern matches it; a path under an excluded
    directory or matching an exclude glob is excluded whatever the negation
    patterns are; and with the pattern [*.log] and the negation [keep.log],
    [keep.log] is kept while [other.log] is excluded. *)
Theorem gitignore_negation :
  (∀ rel_path is_dir dirs ex inc gi neg,
     in_excluded_dir rel_path dirs = false →
     any_match ex rel_path is_dir = false →
     any_match gi rel_path is_dir = true →
     should_exclude rel_path is_dir dirs ex inc gi neg
     = negb (any_match neg rel_path is_dir))
  ∧ (∀ rel_path is_dir dirs ex inc gi neg,
       in_excluded_dir rel_path dirs || any_match ex rel_path is_dir = true →
       should_exclude rel_path is_dir dirs ex inc gi neg = true)
  ∧ should_exclude "keep.log" false DEFAULT_EXCLUDED_DIRS [] []
      ["*.log"] ["keep.log"] = false
  ∧ should_exclude "other.log" false DEFAULT_EXCLUDED_DIRS [] []
      ["*.log"] ["keep.log"] = true.
Proof.
  split; [|split; [|split]].
  - intros * H1 H2 H3. by rewrite should_exclude_steps, H1, H2, H3.
  - intros * H. by rewrite should_exclude_steps, H.
  - vm_compute; reflexivity.
  - vm_compute; reflexivity.
Qed.

Lemma gitignore_negation_witness :
  should_exclude "logs/keep.log" false DEFAULT_EXCLUDED_DIRS ["*.tmp"] ["*.py"]
    ["*.log"] ["keep.log"] = negb (any_match ["keep.log"] "logs/keep.log" false)
  ∧ should_exclude "node_modules/keep.log" false DEFAULT_EXCLUDED_DIRS [] []
      ["*.log"] ["keep.log"] = true.
Proof.
  split.
  - apply (proj1 gitignore_negation); vm_compute; reflexivity.
  - apply (proj1 (proj2 gitignore_negation)); vm_compute; reflexivity.
Defined.

(** *** Ranker *)

Lemma mem_cases x table :
  mem x table = true → Exists (λ y, x = y) table.
Proof.
  unfold mem. intros H. apply existsb_exists in H as (y & Hy & Heq).
  apply String.eqb_eq in Heq. apply Exists_exists. exists y.
  split; [by apply list_elem_of_In|done].
Qed.

Lemma important_not_entrypoint base :
  mem base IMPORTANT_FILENAMES = true → mem base ENTRYPOINT_FILENAMES = false.
Proof.
  intros H%mem_cases. unfold IMPORTANT_FILENAMES in H.
  repeat (apply Exists_cons in H as [->|H]; [reflexivity|]).
  by apply Exists_nil in H.
Qed.

Lemma readme_not_entrypoint base :
  PyStr.startswith base "readme" = true → mem base ENTRYPOINT_FILENAMES = false.
Proof.
  unfold PyStr.startswith. intros H.
  destruct base as [|c base]; [done|]. cbn [String.prefix] in H.
  destruct (ascii_dec "r" c) as [<-|]; [|done].
  reflexivity.
Qed.

(** C2 (as the code has it). A scanned file of at least 400 lines is reported
    with reason [large], also when its name earns [readme] or [config]; a file
    whose name earns [readme] or [config] keeps that reason when it was not
    scanned or has fewer than 400 lines. *)
Theorem score_file_reason line_counts path :
  earns_readme path || earns_config path = true →
  (score_file line_counts path).2 =
    match line_counts !! path with
    | Some n =>
        if 400 <=? n then "large"
        else if earns_readme path then "readme" else "config"
    | None => if earns_readme path then "readme" else "config"
    end.
Proof.
  intros Hearns. unfold score_file.
  set (base := PyStr.lower (PyStr.basename path)).
  assert (mem base ENTRYPOINT_FILENAMES = false) as ->.
  { unfold earns_config, earns_readme in Hearns. fold base in Hearns.
    destruct (PyStr.startswith base "readme") eqn:Hr.
    - by apply readme_not_entrypoint.
    - apply important_not_entrypoint. by destruct (mem base IMPORTANT_FILENAMES). }
  unfold earns_config, earns_readme in *. fold base in Hearns |- *.
  destruct (mem base IMPORTANT_FILENAMES) eqn:Himp,
    (PyStr.startswith base "readme") eqn:Hr; try done;
  destruct (core_path path); cbn;
  destruct (line_counts !! path) as [n|]; cbn; try done;
  rewrite Z.geb_leb; by destruct (400 <=? n).
Qed.

Lemma score_file_reason_witness :
  (score_file (<["docs/README.md" := 120]> ∅) "docs/README.md").2 = "readme".
Proof.
  rewrite score_file_reason by (vm_compute; reflexivity).
  vm_compute; reflexivity.
Defined.

(** C2 (as stated) fails: [README.md] earns [readme], was scanned with 500
    lines, and is reported as [large]. *)
Lemma score_file_readme_downgraded :
  earns_readme "README.md" = true
  ∧ (score_file (<["README.md" := 500]> ∅) "README.md").2 = "large"
  ∧ (score_file (<["package.json" := 400]> ∅) "package.json").2 = "large".
Proof. repeat split; vm_compute; reflexivity. Qed.

(** *** Budget ledger *)

Lemma same_scans_refl st : same_scans st st.
Proof. by repeat split. Qed.

Lemma same_scans_trans st1 st2 st3 :
  same_scans st1 st2 → same_scans st2 st3 → same_scans st1 st3.
Proof. unfold same_scans. intros (?&?&?&?&?&?) (?&?&?&?&?&?). repeat split; congruence. Qed.

Section ledger.
Context (args : Args) (os : os_files).

Lemma record_scan_total rel_path r st :
  total_bytes (record_scan args rel_path r st) = total_bytes st + r.1.2.
Proof.
  destruct r as [[[lc fs] br] tr]. unfold record_scan.
  by destruct (accept_symbols _ _ _ _).
Qed.

(** Once the cap is reached, a step only stats the file. *)
Lemma scan_step_exhausted st item :
  max_total_bytes args ≤ total_bytes st →
  same_scans (scan_step args os st item) st.
Proof.
  intros Hfull. destruct item as [rel_path abs_path]. unfold scan_step.
  destruct (getsize os abs_path); [|apply same_scans_refl].
  destruct (getmtime os abs_path); [|apply same_scans_refl].
  cbn [total_bytes].
  replace (total_bytes st <? max_total_bytes args) with false by lia.
  rewrite andb_false_r. by repeat split.
Qed.

Lemma scan_all_exhausted files st :
  max_total_bytes args ≤ total_bytes st →
  same_scans (fold_left (scan_step args os) files st) st.
Proof.
  revert st. induction files as [|item files IH]; intros st Hfull.
  - apply same_scans_refl.
  - cbn [fold_left].
    pose proof (scan_step_exhausted st item Hfull) as Hstep.
    eapply same_scans_trans; [apply IH|done].
    destruct Hstep as (_ & _ & _ & -> & _). done.
Qed.

Lemma scan_file_bytes L rel_path abs_path rem :
  (∀ lines, read_lines os abs_path = Some lines →
     Forall (λ line, PyStr.len line ≤ L) lines) →
  0 ≤ L → 0 ≤ rem →
  (scan_file os rel_path abs_path (max_file_kb args) (max_file_bytes args)
     (max_scan_lines args) rem).1.2 ≤ rem + L.
Proof.
  intros Hlines HL Hrem. unfold scan_file.
  destruct (_ >? _); [cbn; lia|].
  destruct (read_lines os abs_path) as [lines|]; [|cbn; lia].
  cbn [fst snd].
  pose proof (scan_lines_bytes rel_path (max_file_bytes args)
    (max_scan_lines args) rem L lines
    (mkScan (assoc_get SYMBOL_PATTERNS (PyStr.lower (PyStr.splitext_ext rel_path)))
            [] 0 0 false) (Hlines lines eq_refl) HL) as H.
  cbn [s_bytes_read] in H. lia.
Qed.

Lemma scan_step_total L st item :
  (∀ lines, read_lines os item.2 = Some lines →
     Forall (λ line, PyStr.len line ≤ L) lines) →
  0 ≤ L →
  total_bytes st ≤ max_total_bytes args + L →
  total_bytes (scan_step args os st item) ≤ max_total_bytes args + L.
Proof.
  intros Hlines HL Hst. destruct item as [rel_path abs_path]. unfold scan_step.
  destruct (getsize os abs_path); [|done].
  destruct (getmtime os abs_path); [|done].
  cbn [total_bytes].
  destruct (should_scan rel_path); cbn [andb]; [|done].
  destruct (total_bytes st <? max_total_bytes args) eqn:Hlt; [|done].
  rewrite record_scan_total. cbn [total_bytes].
  pose proof (scan_file_bytes L rel_path abs_path
    (max_total_bytes args - total_bytes st) Hlines HL). lia.
Qed.

Lemma scan_all_total L files st :
  lines_within os files L →
  0 ≤ L →
  total_bytes st ≤ max_total_bytes args + L →
  total_bytes (fold_left (scan_step args os) files st)
    ≤ max_total_bytes args + L.
Proof.
  revert st. induction files as [|item files IH]; intros st Hlines HL Hst; [done|].
  cbn [fold_left]. apply IH; [|done|].
  - intros it ls Hin. apply Hlines. by right.
  - apply scan_step_total; [|done..].
    intros ls. apply Hlines. by left.
Qed.

End ledger.

(** C1 (as the code has it). When no line of a candidate is longer than [L]
    bytes, the bytes consumed by a run stay within the total-byte cap plus
    [L]: the overrun is one line, the one on which the last scan stopped.
    And once the running total has reached the cap, the rest of the run
    scans no file: the ledger keeps its byte total, line counts, symbols and
    flags. *)
Theorem total_bytes_bounded args os files L :
  0 ≤ max_total_bytes args →
  0 ≤ L →
  lines_within os files L →
  total_bytes (scan_all args os files) ≤ max_total_bytes args + L
  ∧ ∀ done rest, files = done ++ rest →
      max_total_bytes args ≤ total_bytes (scan_all args os done) →
      same_scans (scan_all args os files) (scan_all args os done).
Proof.
  intros Hcap HL Hlines. split.
  - apply scan_all_total; [done..|]. cbn. lia.
  - intros pre post -> Hfull. unfold scan_all. rewrite fold_left_app.
    by apply scan_all_exhausted.
Qed.

Lemma total_bytes_bounded_witness :
  let files := [("a.py", "/repo/a.py"); ("b.py", "/repo/b.py")] in
  let os := one_file 100 [long_line] in
  total_bytes (scan_all tight_args os files) ≤ 10 + 100
  ∧ same_scans (scan_all tight_args os files)
               (scan_all tight_args os [("a.py", "/repo/a.py")]).
Proof.
  intros files os.
  assert (lines_within os files 100) as Hlines.
  { intros item lines _ [= <-]. repeat constructor. vm_compute. discriminate. }
  destruct (total_bytes_bounded tight_args os files 100
              ltac:(vm_compute; discriminate) ltac:(lia) Hlines) as [Hsum Hstop].
  split; [exact Hsum|].
  apply (Hstop [("a.py", "/repo/a.py")] [("b.py", "/repo/b.py")] eq_refl).
  vm_compute. discriminate.
Defined.

(** C1 (as stated) fails: with a total cap of 10 bytes and a per-file cap of
    1 byte, a file whose only line has 100 bytes is read in full, and the
    run consumes 100 bytes, more than 10 + 1. *)
Lemma total_bytes_overrun :
  let st := scan_all tight_args (one_file 100 [long_line])
              [("a.py", "/repo/a.py")] in
  total_bytes st = 100
  ∧ max_total_bytes tight_args + max_file_bytes tight_args = 11
  ∧ ¬ (total_bytes st ≤ max_total_bytes tight_args + max_file_bytes tight_args).
Proof. repeat split; vm_compute; [reflexivity..|]. intros H. by apply H. Qed.

(** *** Symbol cap *)

Lemma list_upto_length {A} (n : Z) (l : list A) :
  0 ≤ n → Z.of_nat (length (PyStr.list_upto n l)) ≤ n.
Proof.
  intros Hn. unfold PyStr.list_upto.
  replace (0 <=? n) with true by lia.
  rewrite length_take. lia.
Qed.

Lemma accept_symbols_inv max_symbols file_symbols symbols truncated n :
  0 ≤ max_symbols →
  truncated = true
  ∨ (Z.of_nat (length symbols) = n ∧ (n = 0 ∨ n < max_symbols)) →
  let r := accept_symbols max_symbols file_symbols symbols truncated in
  r.2 = true
  ∨ (Z.of_nat (length r.1) = n + Z.of_nat (length file_symbols)
     ∧ (n + Z.of_nat (length file_symbols) = 0
        ∨ n + Z.of_nat (length file_symbols) < max_symbols)).
Proof.
  intros Hmax Hinv. unfold accept_symbols.
  destruct truncated; cbn [negb andb]; [by left|].
  destruct Hinv as [?|[Hlen Hn]]; [done|].
  case_bool_decide as Hfs; cbn [negb].
  { subst file_symbols. right. cbn. split; [lia|]. lia. }
  assert (0 < Z.of_nat (length file_symbols)).
  { destruct file_symbols; [done|]. cbn [length]. lia. }
  destruct (_ <=? 0) eqn:Hrem; [by left|].
  destruct (_ >=? max_symbols) eqn:Hfull; [by left|].
  right. cbn [fst snd] in *.
  unfold PyStr.list_upto in *.
  replace (0 <=? max_symbols - Z.of_nat (length symbols)) with true in * by lia.
  rewrite length_app, length_take in *.
  rewrite Z.geb_leb in Hfull. apply Z.leb_gt in Hfull, Hrem. lia.
Qed.

Section symbols.
Context (args : Args) (os : os_files).
Hypothesis Hmax : 0 ≤ max_symbols args.

Lemma scan_step_symbols st item n :
  symbols_inv (max_symbols args) st n →
  symbols_inv (max_symbols args) (scan_step args os st item)
              (n + step_symbols args os st item).
Proof.
  intros Hinv. destruct item as [rel_path abs_path].
  unfold scan_step, step_symbols. cbn [fst snd].
  destruct (getsize os abs_path); [|by rewrite Z.add_0_r].
  destruct (getmtime os abs_path); [|by rewrite Z.add_0_r].
  cbn [total_bytes].
  destruct (should_scan rel_path && _); [|by rewrite Z.add_0_r].
  destruct (scan_file _ _ _ _ _ _ _) as [[[lc fs] br] tr]. cbn [fst snd].
  unfold record_scan, symbols_inv. cbn [symbols symbols_truncated].
  pose proof (accept_symbols_inv (max_symbols args) fs (symbols st)
                (symbols_truncated st) n Hmax Hinv) as H.
  destruct (accept_symbols _ _ _ _) as [syms trunc]. done.
Qed.

Lemma scan_all_symbols files st n :
  symbols_inv (max_symbols args) st n →
  symbols_inv (max_symbols args) (fold_left (scan_step args os) files st)
              (n + returned_symbols args os st files).
Proof.
  revert st n. induction files as [|item files IH]; intros st n Hinv.
  - cbn. by rewrite Z.add_0_r.
  - cbn [fold_left returned_symbols]. rewrite Z.add_assoc.
    by apply IH, scan_step_symbols.
Qed.

(** When the scans return more symbols than the cap, the flag is set. *)
Lemma scan_all_symbols_truncated files :
  max_symbols args < returned_symbols args os ledger0 files →
  symbols_truncated (scan_all args os files) = true.
Proof.
  intros Hover.
  destruct (scan_all_symbols files ledger0 0) as [?|[_ Hn]]; [|done|lia].
  right. cbn. split; [done|by left].
Qed.
End symbols.

(** What [main] reports about symbols, in terms of the ledger. *)
Lemma main_symbols args w :
  let st := scan_all args (w_os w) (files_for_scan args w) in
  out_symbols (main args w)
  = PyStr.list_upto (max_symbols args) (sorted symbol_le (symbols st))
  ∧ (symbols_truncated st = true → "symbols truncated" ∈ out_notes (main args w)).
Proof.
  unfold main, files_for_scan, filters_of.
  destruct (load_gitignore _) as [gp gn].
  destruct (collect_files _ _ _) as [files ft]. cbn [fst].
  destruct (build_tree _ _ _ _) as [tree tt]. cbn [out_symbols out_notes].
  split; [done|]. intros ->.
  apply elem_of_app. right. apply elem_of_app. left. by left.
Qed.

(** C7 (as the code has it). The report never lists more than [max_symbols]
    symbols, and whenever the scans of the run return more symbols than
    [max_symbols], the notes carry the marker. The symbols a scan does not
    return (beyond 25 in one file, or in a part of the tree that the byte and
    line budgets left unread) are not counted. *)
Theorem symbols_capped args w :
  0 ≤ max_symbols args →
  Z.of_nat (length (out_symbols (main args w))) ≤ max_symbols args
  ∧ (max_symbols args
       < returned_symbols args (w_os w) ledger0 (files_for_scan args w) →
     "symbols truncated" ∈ out_notes (main args w)).
Proof.
  intros Hmax. destruct (main_symbols args w) as [-> Hnote]. split.
  - by apply list_upto_length.
  - intros Hover. by apply Hnote, scan_all_symbols_truncated.
Qed.

Lemma symbols_capped_witness :
  Z.of_nat (length (out_symbols (main (args_max_symbols 2) (defs_world 3)))) ≤ 2
  ∧ "symbols truncated" ∈ out_notes (main (args_max_symbols 2) (defs_world 3)).
Proof.
  destruct (symbols_capped (args_max_symbols 2) (defs_world 3)
              ltac:(vm_compute; discriminate)) as [Hlen Hnote].
  split; [exact Hlen|]. apply Hnote. vm_compute. reflexivity.
Defined.

(** C7 (as stated) fails: [m.py] holds 27 definitions, the cap is 26, the
    report lists the 25 symbols the scan of the file returned and its notes
    do not mention symbols. *)
Lemma symbols_truncated_unreported :
  let args := args_max_symbols 26 in
  let w := defs_world 27 in
  true_symbol_count (w_os w) (files_for_scan args w) = 27
  ∧ max_symbols args = 26
  ∧ length (out_symbols (main args w)) = 25%nat
  ∧ out_notes (main args w) = ["git head unavailable"].
Proof. repeat split; vm_compute; reflexivity. Qed.

(** *** Tree cut *)

Lemma chars_app s1 s2 :
  PyStr.chars (s1 +:+ s2) = PyStr.chars s1 ++ PyStr.chars s2.
Proof.
  unfold PyStr.chars. induction s1 as [|c s1 IH]; [done|].
  change (String c s1 +:+ s2) with (String c (s1 +:+ s2)).
  cbn. by rewrite IH.
Qed.

Lemma chars_length s : length (PyStr.chars s) = String.length s.
Proof.
  unfold PyStr.chars. induction s as [|c s IH]; [done|].
  cbn. by rewrite IH.
Qed.

Lemma of_chars_chars s : PyStr.of_chars (PyStr.chars s) = s.
Proof. apply string_of_list_ascii_of_string. Qed.

Lemma chars_of_chars l : PyStr.chars (PyStr.of_chars l) = l.
Proof. apply list_ascii_of_string_of_list_ascii. Qed.

Lemma join_cons sep p q ps :
  PyStr.join sep (p :: q :: ps) = p +:+ sep +:+ PyStr.join sep (q :: ps).
Proof. done. Qed.

(** [rfind] returns [-1] or the position of an occurrence past which there
    is none. *)
Lemma rfind_chars_spec c l :
  (PyStr.rfind_chars c l = -1 ∧ c ∉ l)
  ∨ (0 ≤ PyStr.rfind_chars c l
     ∧ l !! Z.to_nat (PyStr.rfind_chars c l) = Some c
     ∧ ∀ j : nat, l !! j = Some c → Z.of_nat j ≤ PyStr.rfind_chars c l).
Proof.
  induction l as [|x l IH]; cbn [PyStr.rfind_chars].
  - left. split; [done|]. apply not_elem_of_nil.
  - destruct IH as [[Hr Hnot]|(Hr & Hat & Hlast)].
    + rewrite Hr. cbn. destruct (Ascii.eqb_spec x c) as [->|Hne].
      * right. split; [done|]. split; [done|].
        intros [|j] Hj; [done|]. cbn in Hj.
        apply list_elem_of_lookup_2 in Hj. done.
      * left. split; [done|]. rewrite not_elem_of_cons. split; [congruence|done].
    + replace (0 <=? PyStr.rfind_chars c l) with true by lia.
      right. split; [lia|]. split.
      * replace (Z.to_nat (PyStr.rfind_chars c l + 1))
          with (S (Z.to_nat (PyStr.rfind_chars c l))) by lia. done.
      * intros [|j] Hj; [lia|]. cbn in Hj. apply Hlast in Hj. lia.
Qed.

(** Cutting the joined lines just before a line break leaves whole lines. *)
Lemma take_join_break lines i :
  Forall newline_free lines →
  PyStr.chars (PyStr.join newline_str lines) !! i = Some newline →
  ∃ k : nat, (0 < k < length lines)%nat
    ∧ take i (PyStr.chars (PyStr.join newline_str lines))
      = PyStr.chars (PyStr.join newline_str (take k lines)).
Proof.
  intros Hfree. revert i.
  induction Hfree as [|p ps Hp Hps IH]; intros i Hi; [done|].
  destruct ps as [|q ps].
  { cbn in Hi. apply list_elem_of_lookup_2 in Hi. done. }
  rewrite join_cons, !chars_app in Hi |- *.
  destruct (decide (i < length (PyStr.chars p))%nat) as [Hlt|Hge].
  { rewrite lookup_app_l in Hi by done.
    apply list_elem_of_lookup_2 in Hi. done. }
  destruct (decide (i = length (PyStr.chars p))) as [->|Hne].
  { exists 1%nat. split; [cbn; lia|]. by rewrite take_app_length. }
  rewrite lookup_app_r in Hi by lia.
  rewrite lookup_app_r in Hi by (cbn; lia).
  destruct (IH _ Hi) as (k & Hk & Htake).
  exists (S k). split; [cbn [length] in *; lia|].
  rewrite take_app_ge by lia. rewrite take_app_ge by (cbn; lia).
  rewrite Htake. cbn [take].
  destruct (take k (q :: ps)) as [|q' ps'] eqn:Hq.
  { destruct k; [lia|done]. }
  by rewrite join_cons, !chars_app.
Qed.

Lemma upto_nonneg n s :
  0 ≤ n → PyStr.upto n s = PyStr.of_chars (take (Z.to_nat n) (PyStr.chars s)).
Proof.
  intros Hn. unfold PyStr.upto, PyStr.list_upto.
  by replace (0 <=? n) with true by lia.
Qed.

Lemma cut_tree_fits lines max_chars :
  PyStr.len (PyStr.join newline_str lines) ≤ max_chars →
  cut_tree lines max_chars = (PyStr.join newline_str lines, false).
Proof.
  intros Hfit. unfold cut_tree.
  by replace (_ <=? max_chars) with true by lia.
Qed.

Lemma cut_tree_cut lines max_chars :
  0 ≤ max_chars →
  Forall newline_free lines →
  max_chars < PyStr.len (PyStr.join newline_str lines) →
  (cut_tree lines max_chars).2 = true
  ∧ PyStr.len (cut_tree lines max_chars).1 ≤ max_chars
  ∧ (break_within (PyStr.join newline_str lines) max_chars →
     whole_lines lines (cut_tree lines max_chars).1)
  ∧ (¬ break_within (PyStr.join newline_str lines) max_chars →
     (cut_tree lines max_chars).1
     = PyStr.upto max_chars (PyStr.join newline_str lines)).
Proof.
  intros Hcap Hfree Hover. unfold cut_tree.
  set (tree := PyStr.join newline_str lines) in *.
  replace (_ <=? max_chars) with false by lia. cbn [fst snd].
  split; [done|].
  rewrite (upto_nonneg max_chars tree) by done.
  unfold PyStr.rfind. rewrite chars_of_chars.
  set (w := take (Z.to_nat max_chars) (PyStr.chars tree)).
  assert (length w = Z.to_nat max_chars) as Hw.
  { unfold w. rewrite length_take, chars_length. unfold PyStr.len in Hover. lia. }
  destruct (rfind_chars_spec newline w) as [[Hr Hnot]|(Hr & Hat & Hlast)].
  - rewrite Hr. cbn [Z.gtb Z.compare].
    split; [|split].
    + unfold PyStr.len, PyStr.of_chars.
      rewrite <- chars_length. fold (PyStr.of_chars w).
      rewrite chars_of_chars. lia.
    + intros (i & Hi0 & Hi & Hnl). exfalso. apply Hnot.
      apply list_elem_of_lookup. exists i. unfold w.
      rewrite lookup_take_lt by lia. done.
    + done.
  - set (r := PyStr.rfind_chars newline w) in *.
    assert (Z.to_nat r < Z.to_nat max_chars)%nat as Hrw.
    { apply lookup_lt_Some in Hat. lia. }
    destruct (r >? 0) eqn:Hpos.
    + rewrite upto_nonneg by lia. rewrite chars_of_chars.
      assert (take (Z.to_nat r) w = take (Z.to_nat r) (PyStr.chars tree)) as Htake.
      { unfold w. rewrite take_take. f_equal. lia. }
      assert (PyStr.chars tree !! Z.to_nat r = Some newline) as Hnl.
      { unfold w in Hat. by rewrite lookup_take_lt in Hat by lia. }
      destruct (take_join_break lines _ Hfree Hnl) as (k & Hk & Hcut).
      fold tree in Hcut.
      rewrite Htake, Hcut, of_chars_chars.
      split; [|split].
      * unfold PyStr.len. rewrite <- chars_length, <- Hcut, length_take. lia.
      * intros _. by exists k.
      * intros Hno. exfalso. apply Hno. exists (Z.to_nat r).
        split; [lia|]. split; [lia|done].
    + split; [|split].
      * unfold PyStr.len. rewrite <- chars_length, chars_of_chars. lia.
      * intros (i & Hi0 & Hi & Hnl). exfalso.
        assert (w !! i = Some newline) as Hwi.
        { unfold w. by rewrite lookup_take_lt by lia. }
        apply Hlast in Hwi. lia.
      * done.
Qed.

(** C4 (as the code has it). When the rendered tree fits the cap,
    [build_tree] returns it whole with the flag unset. When it exceeds the
    cap, the flag is set and the result has at most [max_chars] characters:
    if a line break lies within the cap, the result is a whole number of
    lines of the tree; if none does (the first line alone reaches the cap),
    the result is the first [max_chars] characters, cut inside that line. *)
Theorem build_tree_cut root max_depth max_chars f :
  let lines := walk max_depth f "" 0 root in
  let tree := PyStr.join newline_str lines in
  let r := build_tree root max_depth max_chars f in
  0 ≤ max_chars →
  Forall newline_free lines →
  (PyStr.len tree ≤ max_chars → r = (tree, false))
  ∧ (max_chars < PyStr.len tree →
     r.2 = true
     ∧ PyStr.len r.1 ≤ max_chars
     ∧ (break_within tree max_chars → whole_lines lines r.1)
     ∧ (¬ break_within tree max_chars → r.1 = PyStr.upto max_chars tree)).
Proof.
  intros lines tree r Hcap Hfree. split.
  - apply cut_tree_fits.
  - by apply cut_tree_cut.
Qed.

Lemma build_tree_cut_witness :
  whole_lines (walk 4 default_filters "" 0 small_root)
              (build_tree small_root 4 20 default_filters).1.
Proof.
  assert (Forall newline_free (walk 4 default_filters "" 0 small_root)) as Hfree.
  { vm_compute walk.
    repeat (apply Forall_cons; split); [..|apply Forall_nil_2];
      unfold newline_free; apply (bool_decide_unpack _); by vm_compute. }
  destruct (build_tree_cut small_root 4 20 default_filters
              ltac:(lia) Hfree) as [_ Hcut].
  destruct Hcut as (_ & _ & Hwhole & _); [vm_compute; reflexivity|].
  apply Hwhole. exists 4%nat. repeat split; [lia|vm_compute; reflexivity..].
Defined.

(** C4 (as stated) fails: the first line of the tree has nine characters,
    the cap is four, and the result is cut inside that line. *)
Lemma build_tree_mid_line_cut :
  walk 4 default_filters "" 0 two_files_root = ["README.md"; "setup.py"]
  ∧ build_tree two_files_root 4 4 default_filters = ("READ", true)
  ∧ ∀ k, "READ" ≠ PyStr.join newline_str (take k ["README.md"; "setup.py"]).
Proof.
  split; [vm_compute; reflexivity|]. split; [vm_compute; reflexivity|].
  intros [|[|[|k]]]; vm_compute; discriminate.
Qed.

(** *** The stable sort *)

Section sorting.
Context {A : Type} (le : A → A → bool).

Lemma insert_sorted_perm x l : insert_sorted le x l ≡ₚ x :: l.
Proof.
  induction l as [|y l IH]; [done|]. cbn.
  destruct (le x y); [done|]. rewrite IH. apply Permutation_swap.
Qed.

Lemma sorted_perm l : sorted le l ≡ₚ l.
Proof.
  induction l as [|x l IH]; [done|].
  unfold sorted in *. cbn. by rewrite insert_sorted_perm, IH.
Qed.

Lemma sorted_length l : length (sorted le l) = length l.
Proof. by rewrite sorted_perm. Qed.

Lemma sorted_nil_inv l : sorted le l = [] → l = [].
Proof.
  intros H. apply Permutation_nil_r. rewrite <- H. by rewrite sorted_perm.
Qed.

Hypothesis le_total : ∀ a b, le a b = true ∨ le b a = true.

Lemma insert_sorted_Sorted x l :
  Sorted (λ a b, le a b = true) l →
  Sorted (λ a b, le a b = true) (insert_sorted le x l).
Proof.
  induction 1 as [|y l Hl IH Hy]; cbn; [by repeat constructor|].
  destruct (le x y) eqn:Hxy.
  - by repeat constructor.
  - constructor; [done|].
    destruct l as [|z l]; cbn in *.
    + constructor. by destruct (le_total x y); [congruence|].
    + destruct (le x z); constructor.
      * by destruct (le_total x y); [congruence|].
      * by inversion Hy.
Qed.

Lemma sorted_Sorted l : Sorted (λ a b, le a b = true) (sorted le l).
Proof.
  induction l as [|x l IH]; [constructor|].
  by apply insert_sorted_Sorted.
Qed.
End sorting.

(** *** Grouping *)

Lemma assoc_get_cons {V} k' (v : V) table k :
  assoc_get ((k', v) :: table) k
  = if decide (k' = k) then Some v else assoc_get table k.
Proof.
  unfold assoc_get. cbn.
  destruct (String.eqb_spec k' k); by case_decide.
Qed.

Lemma assoc_get_None {V} (table : list (string * V)) k :
  assoc_get table k = None ↔ k ∉ table.*1.
Proof.
  induction table as [|[k' v] table IH].
  - split; [intros _; apply not_elem_of_nil|done].
  - rewrite assoc_get_cons, fmap_cons, not_elem_of_cons. cbn [fst].
    case_decide as Hk.
    + split; [done|]. intros [Hne _]. by destruct Hne.
    + rewrite IH. split; [by intros ?; split; [congruence|]|by intros [_ ?]].
Qed.

Lemma setdefault_append_get k item grouped k' :
  assoc_get (setdefault_append k item grouped) k'
  = if decide (k = k') then Some (group_at grouped k ++ [item])
    else assoc_get grouped k'.
Proof.
  unfold group_at.
  induction grouped as [|[k0 g] grouped IH]; cbn [setdefault_append].
  - rewrite assoc_get_cons. by case_decide.
  - destruct (String.eqb_spec k0 k) as [->|Hne].
    + rewrite !assoc_get_cons. case_decide; [|done]. by rewrite decide_True.
    + rewrite !assoc_get_cons, IH.
      repeat case_decide; try done; congruence.
Qed.

Lemma setdefault_append_keys k item grouped :
  (setdefault_append k item grouped).*1
  = if decide (k ∈ grouped.*1) then grouped.*1 else grouped.*1 ++ [k].
Proof.
  induction grouped as [|[k0 g] grouped IH]; cbn [setdefault_append].
  - rewrite decide_False by apply not_elem_of_nil. done.
  - destruct (String.eqb_spec k0 k) as [->|Hne]; cbn.
    + rewrite decide_True by left. done.
    + rewrite IH. case_decide as Hin.
      * rewrite decide_True by (by right). done.
      * rewrite decide_False; [done|]. rewrite not_elem_of_cons. naive_solver.
Qed.

Lemma group_of_snoc files item k :
  group_of (files ++ [item]) k
  = group_of files k ++ (if decide (group_key item.1 = k) then [item] else []).
Proof.
  unfold group_of. rewrite filter_app.
  case_decide.
  - by rewrite (filter_cons_True _ item).
  - by rewrite (filter_cons_False _ item).
Qed.

(** What the grouping loop has built after the candidates [files]. *)
Lemma group_files_spec files :
  NoDup (group_files files).*1
  ∧ (∀ k, group_at (group_files files) k = group_of files k)
  ∧ (∀ k, k ∈ (group_files files).*1 ↔ group_of files k ≠ []).
Proof.
  unfold group_files. induction files as [|item files IH] using rev_ind.
  - cbn. split; [constructor|]. split; [done|].
    intros k. split; [by intros ?%elem_of_nil|done].
  - destruct IH as (Hnd & Hget & Hin).
    rewrite fold_left_app. cbn [fold_left].
    set (G := fold_left _ files []) in *.
    split; [|split].
    + rewrite setdefault_append_keys. case_decide as Hk; [done|].
      apply NoDup_app. split; [done|]. split; [|apply NoDup_singleton].
      intros k Hk' ->%list_elem_of_singleton. done.
    + intros k. rewrite group_of_snoc. unfold group_at at 1.
      rewrite setdefault_append_get.
      case_decide as Hk.
      * cbn [default]. by rewrite Hget, Hk.
      * fold (group_at G k). by rewrite Hget, app_nil_r.
    + intros k. rewrite setdefault_append_keys, group_of_snoc.
      destruct (decide (group_key item.1 = k)) as [<-|Hne].
      * split; [intros _ Hnil%app_eq_nil; by destruct Hnil|intros _].
        case_decide; [done|].
        apply elem_of_app. right. by apply list_elem_of_singleton.
      * rewrite app_nil_r, <- Hin.
        case_decide; [done|]. rewrite elem_of_app, list_elem_of_singleton.
        split; [intros [?|?]; [done|congruence]|by left].
Qed.

(** *** Round-robin *)

Section rounds.
Context {A : Type}.
Implicit Types (g : list A) (groups : list (list A)).

Lemma round_cons g groups r :
  round (g :: groups) r = option_list (g !! r) ++ round groups r.
Proof. unfold round. cbn. by destruct (g !! r). Qed.

Lemma round_beyond groups r :
  (max_length groups ≤ r)%nat → round groups r = [].
Proof.
  induction groups as [|g groups IH]; [done|]. cbn [max_length foldr].
  intros Hr. rewrite round_cons, IH by (unfold max_length; lia).
  rewrite lookup_ge_None_2 by lia. done.
Qed.

Lemma rounds_beyond groups r n :
  (max_length groups ≤ r)%nat →
  concat (map (round groups) (seq r n)) = [].
Proof.
  revert r. induction n as [|n IH]; intros r Hr; [done|].
  cbn. rewrite round_beyond by done. apply IH. lia.
Qed.

(** Rounds past the longest group add nothing. *)
Lemma rounds_interleave groups n :
  (max_length groups ≤ n)%nat →
  concat (map (round groups) (seq 0 n)) = interleave groups.
Proof.
  intros Hn. unfold interleave.
  replace n with (max_length groups + (n - max_length groups))%nat by lia.
  rewrite seq_app, map_app, concat_app.
  rewrite (rounds_beyond groups (0 + max_length groups)) by lia.
  by rewrite app_nil_r.
Qed.

Lemma rounds_single g n :
  concat (map (λ r, option_list (g !! r)) (seq 0 n)) = take n g.
Proof.
  induction n as [|n IH]; [done|].
  rewrite seq_S, map_app, concat_app, IH. cbn.
  destruct (g !! n) as [x|] eqn:Hx.
  - cbn. by rewrite (take_S_r _ _ x).
  - apply lookup_ge_None in Hx. cbn.
    rewrite app_nil_r, !take_ge by lia. done.
Qed.

Lemma concat_map_app {B} (a b : B → list A) l :
  concat (map (λ r, a r ++ b r) l) ≡ₚ concat (map a l) ++ concat (map b l).
Proof.
  induction l as [|x l IH]; [done|]. cbn. rewrite IH.
  rewrite <- !(assoc_L (++)). f_equiv.
  rewrite !(assoc_L (++)). f_equiv. apply Permutation_app_comm.
Qed.

Lemma rounds_perm groups n :
  (max_length groups ≤ n)%nat →
  concat (map (round groups) (seq 0 n)) ≡ₚ concat groups.
Proof.
  induction groups as [|g groups IH]; intros Hn.
  - cbn. by rewrite rounds_beyond by (cbn; lia).
  - cbn [max_length foldr] in Hn.
    rewrite (map_ext _ (λ r, option_list (g !! r) ++ round groups r))
      by (intros; apply round_cons).
    rewrite concat_map_app, rounds_single, IH by (unfold max_length; lia).
    by rewrite take_ge by lia.
Qed.

(** Interleaving neither drops nor repeats an element. *)
Lemma interleave_perm groups : interleave groups ≡ₚ concat groups.
Proof. by apply rounds_perm. Qed.
End rounds.

(** *** The while loop *)

Lemma omap_cons {A B} (f : A → option B) x l :
  omap f (x :: l) = option_list (f x) ++ omap f l.
Proof. cbn. by destruct (f x). Qed.

Section loop.
Context (grouped : list (string * list candidate)).

Local Abbreviation grp := (group_at grouped).

Lemma visit_key_eq ind ord prog k :
  visit_key grouped (ind, ord, prog) k =
    match grp k !! default 0%nat (ind !! k) with
    | None => (ind, ord, prog)
    | Some item => (<[k := S (default 0%nat (ind !! k))]> ind, ord ++ [item], true)
    end.
Proof. done. Qed.

(** One pass of the [for] loop over the keys, in round [r]. *)
Lemma pass_spec (r : nat) ks ind ord prog :
  NoDup ks →
  (∀ k, k ∈ ks → default 0%nat (ind !! k) = (r `min` length (grp k))%nat) →
  ∃ ind',
    fold_left (visit_key grouped) ks (ind, ord, prog)
    = (ind', ord ++ omap (λ k, grp k !! r) ks,
       prog || bool_decide (omap (λ k, grp k !! r) ks ≠ []))
    ∧ (∀ k, k ∈ ks → default 0%nat (ind' !! k) = (S r `min` length (grp k))%nat)
    ∧ (∀ k, k ∉ ks → ind' !! k = ind !! k).
Proof.
  intros Hnd. revert ind ord prog.
  induction Hnd as [|k ks Hk Hnd IH]; intros ind ord prog Hind.
  { exists ind. cbn [fold_left omap].
    rewrite bool_decide_false by (intros H; by apply H).
    rewrite app_nil_r, orb_false_r.
    split; [done|]. split; [by intros k ?%elem_of_nil|done]. }
  cbn [fold_left]. rewrite visit_key_eq.
  rewrite (Hind k) by left.
  destruct (grp k !! r) as [item|] eqn:Hr.
  - apply lookup_lt_Some in Hr as Hlt.
    rewrite Nat.min_l by lia. rewrite Hr.
    destruct (IH (<[k := S r]> ind) (ord ++ [item]) true) as (ind' & Heq & Hin & Hout).
    { intros k' Hk'. rewrite lookup_insert_ne by congruence.
      apply Hind. by right. }
    exists ind'. rewrite Heq, omap_cons, Hr. cbn [option_list app].
    split; [|split].
    + rewrite <- (assoc_L (++)). cbn. by rewrite orb_true_r.
    + intros k' [->|Hk']%elem_of_cons; [|by apply Hin].
      rewrite Hout, lookup_insert_eq by done.
      change (default 0%nat (Some (S r))) with (S r). lia.
    + intros k' [Hne Hk']%not_elem_of_cons.
      rewrite Hout, lookup_insert_ne by done. done.
  - apply lookup_ge_None in Hr as Hge.
    rewrite Nat.min_r by lia. rewrite lookup_ge_None_2 by lia.
    destruct (IH ind ord prog) as (ind' & Heq & Hin & Hout).
    { intros k' Hk'. apply Hind. by right. }
    exists ind'. rewrite Heq, omap_cons, Hr. cbn [option_list app].
    split; [done|]. split.
    + intros k' [->|Hk']%elem_of_cons; [|by apply Hin].
      rewrite Hout by done. rewrite Hind by left. lia.
    + intros k' [Hne Hk']%not_elem_of_cons. by apply Hout.
Qed.

Lemma empty_round_later keys (r r' : nat) :
  omap (λ k, grp k !! r) keys = [] → (r ≤ r')%nat →
  omap (λ k, grp k !! r') keys = [].
Proof.
  intros Hr Hle. induction keys as [|k keys IH]; [done|].
  rewrite omap_cons in Hr |- *. destruct (grp k !! r) eqn:Hk; [done|].
  apply lookup_ge_None in Hk. rewrite lookup_ge_None_2 by lia. by apply IH.
Qed.

Lemma empty_rounds_later keys (r r' : nat) n :
  omap (λ k, grp k !! r) keys = [] → (r ≤ r')%nat →
  concat (map (λ r, omap (λ k, grp k !! r) keys) (seq r' n)) = [].
Proof.
  intros Hr. revert r'. induction n as [|n IH]; intros r' Hle; [done|].
  cbn. rewrite (empty_round_later keys r r') by done. apply IH. lia.
Qed.

(** The loop appends the rounds from [r] on; [fuel] passes are enough when
    the loop stops by itself, and otherwise give [fuel] rounds. *)
Lemma loop_spec fuel keys (r : nat) ind ord :
  NoDup keys →
  (∀ k, k ∈ keys → default 0%nat (ind !! k) = (r `min` length (grp k))%nat) →
  round_robin_loop fuel keys grouped ind ord
  = ord ++ concat (map (λ r, omap (λ k, grp k !! r) keys) (seq r fuel)).
Proof.
  intros Hnd. revert r ind ord.
  induction fuel as [|fuel IH]; intros r ind ord Hind.
  { cbn. by rewrite app_nil_r. }
  cbn [round_robin_loop].
  destruct (pass_spec r keys ind ord false Hnd Hind) as (ind' & -> & Hin & _).
  cbn [orb seq map concat].
  case_bool_decide as Hround.
  - rewrite (IH (S r) ind') by done. by rewrite <- (assoc_L (++)).
  - rewrite (empty_rounds_later keys r (S r)) by (done || lia).
    by rewrite Hround.
Qed.
End loop.

(** *** The scheduler *)

Lemma group_at_sorted grouped k :
  group_at (map (λ kg, (kg.1, sorted scan_le kg.2)) grouped) k
  = sorted scan_le (group_at grouped k).
Proof.
  unfold group_at. induction grouped as [|[k' g] grouped IH]; [done|].
  cbn [map fst snd]. rewrite !assoc_get_cons. by case_decide.
Qed.

Lemma initial_indices keys k :
  default 0%nat
    ((list_to_map (map (λ k, (k, 0%nat)) keys) : gmap string nat) !! k) = 0%nat.
Proof.
  induction keys as [|k' keys IH]; [done|].
  cbn [map]. rewrite list_to_map_cons. destruct (decide (k' = k)) as [->|Hne].
  - by rewrite lookup_insert_eq.
  - by rewrite lookup_insert_ne.
Qed.

Lemma omap_round {A} (grp : string → list A) keys r :
  omap (λ k, grp k !! r) keys = round (map grp keys) r.
Proof.
  unfold round. induction keys as [|k keys IH]; [done|].
  cbn [map]. by rewrite !omap_cons, IH.
Qed.

Lemma group_keys_spec files :
  NoDup (group_keys files)
  ∧ (∀ k, k ∈ group_keys files ↔ ∃ item, item ∈ files ∧ group_key item.1 = k).
Proof.
  destruct (group_files_spec files) as (Hnd & _ & Hin).
  unfold group_keys. split.
  - by rewrite sorted_perm.
  - intros k. rewrite sorted_perm, Hin. split.
    + intros Hne. destruct (group_of files k) as [|item l] eqn:Hf; [done|].
      exists item.
      assert (item ∈ group_of files k) as Hi by (rewrite Hf; left).
      apply list_elem_of_filter in Hi. by destruct Hi.
    + intros (item & Hitem & Hk) Hnil.
      assert (item ∈ group_of files k) as Hf by by apply list_elem_of_filter.
      rewrite Hnil in Hf. by apply elem_of_nil in Hf.
Qed.

Lemma max_length_groups files keys :
  (max_length (map (λ k, sorted scan_le (group_of files k)) keys)
     ≤ length files)%nat.
Proof.
  induction keys as [|k keys IH]; [cbn; lia|].
  cbn [map]. change (max_length (?g :: ?gs)) with (length g `max` max_length gs)%nat.
  rewrite sorted_length.
  assert (length (group_of files k) ≤ length files)%nat by apply length_filter.
  lia.
Qed.

(** The scan order is the round-robin interleaving of the sorted groups. *)
Lemma reorder_interleave files :
  reorder_files_for_scan files = interleave (scan_groups files).
Proof.
  destruct (group_files_spec files) as (Hnd & Hget & Hin).
  destruct (group_keys_spec files) as (Hkeys & _).
  unfold reorder_files_for_scan. fold (group_keys files).
  rewrite (loop_spec _ _ _ 0) by (done || intros; apply initial_indices).
  cbn [app].
  rewrite (map_ext _ (round (scan_groups files))).
  - apply rounds_interleave. unfold scan_groups.
    pose proof (max_length_groups files (group_keys files)). lia.
  - intros r. rewrite omap_round. unfold scan_groups. f_equal.
    apply map_ext. intros k. by rewrite group_at_sorted, Hget.
Qed.

Lemma scan_le_before a b : scan_le a b = true ↔ before a b.
Proof.
  unfold scan_le, key_le, scan_key, before, String.le.
  destruct (Z.ltb_spec (ext_priority a.1).1 (ext_priority b.1).1);
    [split; [left; lia|done]|].
  destruct (Z.eqb_spec (ext_priority a.1).1 (ext_priority b.1).1);
    cbn [orb andb]; [|split; [done|intros [?|[? _]]; lia]].
  destruct (Z.ltb_spec (name_priority a.1) (name_priority b.1));
    [split; [right; lia|done]|].
  destruct (Z.eqb_spec (name_priority a.1) (name_priority b.1));
    cbn [orb andb].
  - rewrite <- Is_true_true. split.
    + intros Hp. right. split; [lia|]. right. split; [lia|done].
    + intros [?|[_ [?|[_ ?]]]]; [lia|lia|done].
  - split; [done|intros [?|[_ [?|[? _]]]]; lia].
Qed.

Lemma scan_le_total a b : scan_le a b = true ∨ scan_le b a = true.
Proof.
  rewrite !scan_le_before. unfold before.
  destruct (Z.lt_trichotomy (ext_priority a.1).1 (ext_priority b.1).1)
    as [?|[He|?]]; [by left; left| |by right; left].
  destruct (Z.lt_trichotomy (name_priority a.1) (name_priority b.1))
    as [?|[Hn|?]]; [left; right; by split; [|left]|
                    |right; right; by split; [|left]].
  destruct (total String.le a.1 b.1).
  - left. right. split; [done|]. right. by split.
  - right. right. split; [done|]. right. by split.
Qed.

Global Instance before_trans : Transitive before.
Proof.
  intros a b c. unfold before.
  intros [?|[? [?|[? Hab]]]] [?|[? [?|[? Hbc]]]];
    try (left; lia); try (right; split; [lia|]; left; lia).
  right. split; [lia|]. right. split; [lia|]. by etrans.
Qed.

Lemma Sorted_before l :
  Sorted (λ a b, scan_le a b = true) l → StronglySorted before l.
Proof.
  intros Hl. apply Sorted_StronglySorted; [apply _|].
  induction Hl as [|x l Hl IH Hx]; constructor; [done|].
  destruct Hx; constructor. by apply scan_le_before.
Qed.

Lemma scan_groups_sorted files k :
  StronglySorted before (sorted scan_le (group_of files k)).
Proof. apply Sorted_before, sorted_Sorted, scan_le_total. Qed.

Lemma group_keys_sorted files : StronglySorted String.le (group_keys files).
Proof.
  apply Sorted_StronglySorted; [apply _|].
  unfold group_keys.
  pose proof (sorted_Sorted String.leb String.leb_total (group_files files).*1)
    as Hs.
  induction Hs as [|x l Hl IH Hx]; constructor; [done|].
  destruct Hx as [|y l' Hy]; constructor. unfold String.le. by rewrite Hy.
Qed.

(** The groups, put one after the other, hold every candidate once. *)
Lemma concat_groups_perm keys files :
  NoDup keys →
  (∀ item, item ∈ files → group_key item.1 ∈ keys) →
  concat (map (group_of files) keys) ≡ₚ files.
Proof.
  intros Hnd. revert files.
  induction Hnd as [|k keys Hk Hnd IH]; intros files Hcover.
  - destruct files as [|item files]; [done|].
    exfalso. apply (not_elem_of_nil (group_key item.1)), Hcover. left.
  - cbn [map concat].
    set (others := filter (λ item : candidate, ¬ group_key item.1 = k) files).
    assert (map (group_of files) keys = map (group_of others) keys) as ->.
    { apply map_ext_in. intros k' Hk'%list_elem_of_In.
      unfold group_of, others. rewrite list_filter_filter.
      apply list_filter_iff. intros item. split; [|by intros [? _]].
      intros Hitem. split; [done|]. congruence. }
    rewrite IH.
    + apply (filter_app_complement (λ item : candidate, group_key item.1 = k)).
    + intros item [Hne Hitem]%list_elem_of_filter.
      pose proof (Hcover item Hitem) as Hin.
      apply elem_of_cons in Hin as [?|?]; done.
Qed.

Lemma concat_sorted_perm files keys :
  concat (map (λ k, sorted scan_le (group_of files k)) keys)
  ≡ₚ concat (map (group_of files) keys).
Proof.
  induction keys as [|k keys IH]; [done|].
  cbn [map concat]. by rewrite sorted_perm, IH.
Qed.

(** The scan order starts with round 0. *)
Lemma interleave_first_round {A} (groups : list (list A)) :
  ∃ rest, interleave groups = round groups 0 ++ rest.
Proof.
  unfold interleave. destruct (max_length groups) as [|m] eqn:Hm.
  - exists []. rewrite round_beyond by lia. done.
  - by exists (concat (map (round groups) (seq 1 m))).
Qed.

(** Round 0 holds the first element of every group when no group is empty. *)
Lemma first_round_heads {A} (groups : list (list A)) :
  Forall (λ g, g ≠ []) groups →
  Forall2 (λ g x, head g = Some x) groups (round groups 0).
Proof.
  induction 1 as [|g groups Hg _ IH]; [constructor|].
  rewrite round_cons. destruct g as [|x g]; [done|].
  by constructor.
Qed.

(** The scan order is made of rounds over the groups, which are taken in
    sorted key order and are each in their scan order; it starts with the
    first file of every group. *)
Lemma reorder_rounds files :
  ∃ (keys : list string) (groups : list (list candidate)),
    StronglySorted String.le keys ∧ NoDup keys
    ∧ (∀ k, k ∈ keys ↔ ∃ item, item ∈ files ∧ group_key item.1 = k)
    ∧ Forall2 (λ k g, g ≡ₚ group_of files k ∧ StronglySorted before g)
              keys groups
    ∧ reorder_files_for_scan files = interleave groups
    ∧ Forall2 (λ g item, head g = Some item) groups (round groups 0)
    ∧ ∃ rest, reorder_files_for_scan files = round groups 0 ++ rest.
Proof.
  exists (group_keys files), (scan_groups files).
  destruct (group_keys_spec files) as [Hnd Hin].
  split; [apply group_keys_sorted|]. split; [done|]. split; [done|].
  split; [|split; [apply reorder_interleave|split]].
  - unfold scan_groups. apply Forall2_fmap_r, Forall_Forall2_diag, Forall_forall.
    intros k _. split; [apply sorted_perm|apply scan_groups_sorted].
  - apply first_round_heads. unfold scan_groups.
    apply Forall_fmap, Forall_forall. intros k Hk Hnil.
    apply sorted_nil_inv in Hnil.
    destruct (group_files_spec files) as (_ & _ & Hne).
    apply (Hne k); [|done]. unfold group_keys in Hk. by rewrite sorted_perm in Hk.
  - rewrite reorder_interleave. apply interleave_first_round.
Qed.

(** C9. The scan order is a permutation of the candidate list: every
    candidate occurs in it as often as in the input, and the two lists have
    the same length. *)
Theorem reorder_permutation files :
  reorder_files_for_scan files ≡ₚ files
  ∧ length (reorder_files_for_scan files) = length files.
Proof.
  assert (reorder_files_for_scan files ≡ₚ files) as Hperm.
  { rewrite reorder_interleave, interleave_perm. unfold scan_groups.
    rewrite concat_sorted_perm.
    destruct (group_keys_spec files) as [Hnd Hin].
    apply concat_groups_perm; [done|].
    intros item Hitem. apply Hin. by exists item. }
  split; [done|]. by rewrite Hperm.
Qed.

(** *** Worked examples *)

(** Three rounds over the groups [README.md], [docs], [src] and [tools]. *)
Example reorder_example :
  reorder_files_for_scan
    (cand <$> ["README.md"; "docs/guide.md"; "src/app.ts";
               "src/core/session.ts"; "src/model.swift"; "tools/run.py";
               "tools/registry.py"])
  = cand <$> ["README.md"; "docs/guide.md"; "src/model.swift";
              "tools/registry.py"; "src/core/session.ts"; "tools/run.py";
              "src/app.ts"].
Proof. vm_compute. reflexivity. Qed.

(** The report on the scenario repository. *)
Example scenario_report :
  let out := main default_args scenario in
  out_top_files out
    = [mkTop "README.md" "readme"; mkTop "src/core/engine.py" "large"]
  ∧ out_symbols out
    = [mkSymbol "Engine" "class" "src/core/engine.py" 1;
       mkSymbol "run" "func" "src/core/engine.py" 50]
  ∧ out_hotspots out = [mkHot "src/core/engine.py" ["large"; "core"]]
  ∧ out_tree out
    = PyStr.join newline_str ["src/"; "  core/"; "    engine.py"; "README.md"]
  ∧ out_notes out = [].
Proof. repeat split; vm_compute; reflexivity. Qed.

(** *** What a scan returns *)

Lemma read_off_more rel_path table seen line s :
  read_off rel_path table seen s → read_off rel_path table (seen ++ [line]) s.
Proof.
  intros (Hp & Hl & l & Hat & Hs & Hm). split; [done|]. split; [done|].
  exists l. split; [|done]. by apply lookup_app_l_Some.
Qed.

Lemma scan_inv_count rel_path table seen line st :
  scan_inv rel_path table seen st →
  scan_inv rel_path table (seen ++ [line])
    (mkScan (s_patterns st) (s_symbols st) (s_line_count st + 1)
            (s_bytes_read st + PyStr.len line) (s_truncated st)).
Proof.
  intros (Hc & Hp & Hs & Hord). unfold scan_inv. cbn.
  rewrite length_app. cbn [length].
  split; [lia|]. split; [done|]. split; [|done].
  eapply Forall_impl; [exact Hs|]. cbn. intros s [Hr Hle].
  split; [by apply read_off_more|lia].
Qed.

Lemma match_line_inv rel_path table seen line st :
  scan_inv rel_path table seen st →
  scan_inv rel_path table (seen ++ [line])
    (match_line rel_path line
       (mkScan (s_patterns st) (s_symbols st) (s_line_count st + 1)
               (s_bytes_read st + PyStr.len line) (s_truncated st))).
Proof.
  intros Hinv. pose proof (scan_inv_count _ _ _ line _ Hinv) as Hinv'.
  destruct Hinv as (Hc & Hp & Hs & Hord).
  unfold match_line. cbn [s_line_count s_patterns s_symbols s_bytes_read s_truncated].
  destruct (negb (truthy _)) eqn:Htruthy; [done|].
  destruct (skipped_line line) eqn:Hskip; [done|].
  destruct (first_match _ line) as [[name kind]|] eqn:Hm; [|done].
  assert (s_patterns st = table) as Htable.
  { destruct Hp as [Hoff|?]; [|done]. by rewrite Hoff in Htruthy. }
  rewrite Htable in Hm.
  destruct Hinv' as (_ & _ & Hs' & _). cbn [s_symbols] in Hs'.
  unfold scan_inv. cbn [s_line_count s_patterns s_symbols].
  rewrite length_app in *. cbn [length] in *.
  split; [lia|]. split; [by destruct (_ >=? _); [left|right]|].
  split.
  - apply Forall_app. split; [done|]. apply Forall_singleton.
    split; [|cbn; lia]. unfold read_off.
    cbn [sym_line sym_name sym_kind sym_path].
    split; [done|]. split; [lia|]. exists line. split; [|by split].
    rewrite Hc. replace (Z.to_nat _) with (length seen) by lia.
    by rewrite lookup_app_r, Nat.sub_diag by lia.
  - apply StronglySorted_app_2; [|done|by repeat constructor].
    intros a b Ha ->%list_elem_of_singleton. cbn.
    rewrite Forall_forall in Hs. destruct (Hs a Ha) as [_ Hle]. lia.
Qed.

Lemma scan_lines_inv rel_path table mfb msl rem rest seen st :
  scan_inv rel_path table seen st →
  ∃ seen', seen' `prefix_of` seen ++ rest ∧
    scan_inv rel_path table seen' (scan_lines rel_path mfb msl rem rest st).
Proof.
  revert seen st. induction rest as [|line rest IH]; intros seen st Hinv.
  { exists seen. by rewrite app_nil_r. }
  cbn [scan_lines s_line_count s_bytes_read s_patterns s_symbols s_truncated].
  pose proof (scan_inv_count _ _ _ line _ Hinv) as Hinv'.
  assert (seen ++ [line] `prefix_of` seen ++ line :: rest) as Hpre.
  { exists rest. by rewrite <- (assoc_L (++)). }
  repeat case_match.
  - exists (seen ++ [line]). split; [done|].
    destruct Hinv' as (? & ? & ? & ?). by repeat split.
  - exists (seen ++ [line]). split; [done|].
    destruct Hinv' as (? & ? & ? & ?). by repeat split.
  - exists (seen ++ [line]). split; [done|].
    destruct Hinv' as (? & ? & ? & ?). by repeat split.
  - exists (seen ++ [line]). split; [done|].
    destruct Hinv' as (? & ? & ? & ?). by repeat split.
  - destruct (IH (seen ++ [line]) _ (match_line_inv _ _ _ line _ Hinv))
      as (seen' & Hseen' & Hfinal).
    exists seen'. split; [|done]. by rewrite <- (assoc_L (++)) in Hseen'.
Qed.

Lemma read_off_prefix rel_path table seen lines s :
  seen `prefix_of` lines →
  read_off rel_path table seen s → read_off rel_path table lines s.
Proof.
  intros [rest ->] (Hp & Hl & l & Hat & Hs & Hm). split; [done|]. split; [done|].
  exists l. split; [|done]. by apply lookup_app_l_Some.
Qed.

(** X1. Every symbol [scan_file] returns carries the path of the file and the
    number of a line of the file, between 1 and the line count returned;
    that line is not blank and not a comment, and the first pattern of the
    file's table that matches it gives the symbol's name and kind. The
    symbols come in strictly increasing line order, so a line yields at
    most one symbol. *)
Theorem scan_file_symbols_read_off os rel_path abs_path kb mfb msl rem
    lines line_count symbols bytes truncated :
  read_lines os abs_path = Some lines →
  scan_file os rel_path abs_path kb mfb msl rem
    = (Some line_count, symbols, bytes, truncated) →
  Forall (λ s, read_off rel_path (default [] (table_of rel_path)) lines s
               ∧ sym_line s ≤ line_count) symbols
  ∧ StronglySorted (λ a b, sym_line a < sym_line b) symbols.
Proof.
  intros Hlines. unfold scan_file. rewrite Hlines.
  destruct (_ >? _); [done|]. intros [= <- <- <- <-].
  fold (table_of rel_path).
  destruct (scan_lines_inv rel_path (table_of rel_path) mfb msl rem lines []
              (mkScan (table_of rel_path) [] 0 0 false))
    as (seen & Hseen & Hc & _ & Hs & Hord).
  { split; [done|]. split; [by right|]. split; constructor. }
  split; [|done]. eapply Forall_impl; [exact Hs|]. cbn beta.
  intros s [Hr Hle]. split; [by eapply read_off_prefix|]. by rewrite Hc.
Qed.

Lemma scan_file_symbols_read_off_witness :
  let r := scan_file (one_file 10 [ln "# a module"; ln "def f():"]) "m.py"
             "/repo/m.py" 512 524288 4000 1000 in
  Forall (λ s, read_off "m.py" (default [] (table_of "m.py"))
                 [ln "# a module"; ln "def f():"] s
               ∧ sym_line s ≤ 2) r.1.1.2
  ∧ StronglySorted (λ a b, sym_line a < sym_line b) r.1.1.2.
Proof.
  apply (scan_file_symbols_read_off (one_file 10 [ln "# a module"; ln "def f():"])
           "m.py" "/repo/m.py" 512 524288 4000 1000 _ 2 _ 20 false).
  - reflexivity.
  - vm_compute. reflexivity.
Defined.

Lemma total_len_cons line lines :
  total_len (line :: lines) = PyStr.len line + total_len lines.
Proof. done. Qed.

Lemma len_nonneg line : 0 ≤ PyStr.len line.
Proof. unfold PyStr.len. lia. Qed.

Lemma total_len_nonneg lines : 0 ≤ total_len lines.
Proof.
  induction lines as [|line lines IH]; cbn; [done|].
  pose proof (len_nonneg line). unfold total_len in IH. lia.
Qed.

Lemma match_line_bytes rel_path line st :
  s_bytes_read (match_line rel_path line st) = s_bytes_read st.
Proof. pose proof (match_line_counters rel_path line st) as H. by injection H. Qed.

Lemma match_line_truncated rel_path line st :
  s_truncated (match_line rel_path line st) = s_truncated st.
Proof. pose proof (match_line_counters rel_path line st) as H. by injection H. Qed.

Lemma match_line_count rel_path line st :
  s_line_count (match_line rel_path line st) = s_line_count st.
Proof. pose proof (match_line_counters rel_path line st) as H. by injection H. Qed.

(** Why a scan stops early, and what holds when it does not. *)
Lemma scan_lines_truncated rel_path mfb msl rem lines st :
  s_truncated st = false → 0 ≤ s_bytes_read st → within_budgets mfb rem st →
  let st' := scan_lines rel_path mfb msl rem lines st in
  0 ≤ s_bytes_read st'
  ∧ if s_truncated st'
    then rem ≤ 0 ∨ mfb < s_bytes_read st' ∨ rem < s_bytes_read st'
    else within_budgets mfb rem st'.
Proof.
  revert st. induction lines as [|line rest IH]; intros st Ht Hb Hw.
  { cbn. by rewrite Ht. }
  pose proof (len_nonneg line).
  cbn [scan_lines s_line_count s_bytes_read s_patterns s_symbols s_truncated].
  destruct (_ >? msl).
  { cbn [s_truncated s_bytes_read]. by rewrite Ht. }
  destruct (Z.leb_spec rem 0).
  { cbn [set_truncated s_truncated s_bytes_read]. split; [done|by left]. }
  destruct (Z.gtb_spec (s_bytes_read st + PyStr.len line) mfb).
  { cbn [set_truncated s_truncated s_bytes_read]. split; [lia|]. right. by left. }
  destruct (Z.gtb_spec (s_bytes_read st + PyStr.len line) rem).
  { cbn [set_truncated s_truncated s_bytes_read]. split; [lia|]. right. by right. }
  apply IH.
  - by rewrite match_line_truncated.
  - rewrite match_line_bytes. cbn. lia.
  - unfold within_budgets. rewrite match_line_bytes. cbn. right. lia.
Qed.

(** X2. The byte count [scan_file] returns is never negative. When the scan
    reports a truncation, the caller's remaining budget was already used up
    or the byte count exceeds the per-file cap or the remaining budget; when
    it reports none, the byte count is within both, or no byte was counted. *)
Theorem scan_file_truncated os rel_path abs_path kb mfb msl rem :
  let r := scan_file os rel_path abs_path kb mfb msl rem in
  0 ≤ r.1.2
  ∧ if r.2 then rem ≤ 0 ∨ mfb < r.1.2 ∨ rem < r.1.2
    else r.1.2 = 0 ∨ (r.1.2 ≤ mfb ∧ r.1.2 ≤ rem).
Proof.
  unfold scan_file. destruct (_ >? _); [cbn; split; [done|by left]|].
  destruct (read_lines os abs_path) as [lines|]; [|cbn; split; [done|by left]].
  cbn [fst snd].
  apply (scan_lines_truncated rel_path mfb msl rem lines (mkScan _ [] 0 0 false));
    [done|done|by left].
Qed.

(** An untruncated scan counted every line up to the line cap, and one line
    more when the file is longer. *)
Lemma scan_lines_untruncated rel_path mfb msl rem lines st :
  let st' := scan_lines rel_path mfb msl rem lines st in
  s_truncated st' = false →
  s_line_count st'
    = s_line_count st
      + Z.min (Z.of_nat (length lines)) (Z.max (msl - s_line_count st) 0 + 1)
  ∧ s_bytes_read st'
    = s_bytes_read st
      + total_len (take (Z.to_nat (msl - s_line_count st)) lines).
Proof.
  revert st. induction lines as [|line rest IH]; intros st.
  { cbn. intros _. rewrite take_nil. cbn. lia. }
  cbn [scan_lines s_line_count s_bytes_read s_patterns s_symbols s_truncated].
  destruct (Z.gtb_spec (s_line_count st + 1) msl) as [Hcap|Hcap].
  { cbn [s_truncated s_line_count s_bytes_read length]. intros _.
    replace (Z.to_nat _) with 0%nat by lia. cbn. lia. }
  destruct (rem <=? 0); [done|].
  destruct (_ >? mfb); [done|]. destruct (_ >? rem); [done|].
  intros Hun. destruct (IH _ Hun) as [Hc Hb].
  cbn zeta in Hc, Hb. rewrite Hc, Hb.
  rewrite match_line_count, match_line_bytes.
  cbn [s_line_count s_bytes_read length].
  replace (Z.to_nat (msl - s_line_count st))
    with (S (Z.to_nat (msl - (s_line_count st + 1)))) by lia.
  cbn [take]. rewrite total_len_cons. split; lia.
Qed.

(** X3. When [scan_file] reports no truncation for a readable file below the
    size cap, the line count is the number of lines of the file, or the
    line cap plus one when the file has more lines than the cap, and the
    byte count is the number of bytes of the lines up to the line cap. *)
Theorem scan_file_untruncated os rel_path abs_path kb mfb msl rem size lines :
  getsize os abs_path = Some size → size ≤ kb * 1024 →
  read_lines os abs_path = Some lines →
  let r := scan_file os rel_path abs_path kb mfb msl rem in
  r.2 = false →
  r.1.1.1 = Some (Z.min (Z.of_nat (length lines)) (Z.max msl 0 + 1))
  ∧ r.1.2 = total_len (take (Z.to_nat msl) lines).
Proof.
  intros Hsize Hle Hlines. unfold scan_file. rewrite Hsize, Hlines.
  cbn [default from_option id]. replace (size >? kb * 1024) with false by lia.
  cbn [fst snd]. intros Hun.
  destruct (scan_lines_untruncated rel_path mfb msl rem lines _ Hun) as [Hc Hb].
  cbn [s_line_count s_bytes_read] in Hc, Hb.
  rewrite Hc, Hb, Z.sub_0_r. done.
Qed.

Lemma scan_file_untruncated_witness :
  let r := scan_file (one_file 6 [ln "a"; ln "b"; ln "c"]) "notes.md"
             "/repo/notes.md" 512 524288 2 1000 in
  r.1.1.1 = Some (Z.min 3 (Z.max 2 0 + 1))
  ∧ r.1.2 = total_len (take 2 [ln "a"; ln "b"; ln "c"]).
Proof.
  apply (scan_file_untruncated (one_file 6 [ln "a"; ln "b"; ln "c"]) "notes.md"
           "/repo/notes.md" 512 524288 2 1000 6 [ln "a"; ln "b"; ln "c"]).
  - reflexivity.
  - lia.
  - reflexivity.
  - vm_compute. reflexivity.
Defined.

(** *** Directory-only patterns *)

Lemma rev_app_app s1 s2 acc :
  String.rev_app (s1 +:+ s2) acc = String.rev_app s2 (String.rev_app s1 acc).
Proof.
  revert acc. induction s1 as [|c s1 IH]; intros acc; [done|].
  change (String c s1 +:+ s2) with (String c (s1 +:+ s2)). cbn. apply IH.
Qed.

Lemma endswith_slash p : endswith (p +:+ "/") "/" = true.
Proof.
  unfold endswith, String.rev. rewrite rev_app_app.
  cbn [String.rev_app String.prefix].
  destruct (ascii_dec "/" "/"); [|done]. by destruct (String.rev_app p "").
Qed.

Lemma upto_drop_slash p : PyStr.upto (-1) (p +:+ "/") = p.
Proof.
  unfold PyStr.upto, PyStr.list_upto. cbn [Z.leb Z.compare].
  rewrite chars_app, length_app.
  replace (length (PyStr.chars p) + length (PyStr.chars "/") - Z.to_nat (- -1))%nat
    with (length (PyStr.chars p)) by (cbn; lia).
  by rewrite take_app_length, of_chars_chars.
Qed.

(** X4. A pattern ending in a slash never matches a file; it matches a
    directory exactly when the directory is the one named before the slash
    or lies below it. *)
Theorem match_pattern_directory_only p rel_path is_dir :
  match_pattern (p +:+ "/") rel_path is_dir
  = is_dir && (String.eqb rel_path p || PyStr.startswith rel_path (p +:+ "/")).
Proof.
  unfold match_pattern. rewrite endswith_slash, upto_drop_slash.
  by destruct is_dir.
Qed.

(** *** Discovery *)

(** Induction on the directory structure. *)
Lemma entry_induction (P : entry → Prop) :
  (∀ name, P (File name)) →
  (∀ name, P (Dir name None)) →
  (∀ name children, Forall P children → P (Dir name (Some children))) →
  ∀ e, P e.
Proof.
  intros Hfile Hnone Hsome.
  fix IH 1. intros [name|name [children|]]; [apply Hfile| |apply Hnone].
  apply Hsome. induction children as [|c children IHc]; constructor; [apply IH|done].
Qed.

Lemma sorted_entries_elem {A} (children : list entry) (g : entry → A) cs :
  cs ∈ sorted_entries (map (λ c, (c, g c)) children) →
  cs.1 ∈ children ∧ cs.2 = g cs.1.
Proof.
  unfold sorted_entries. rewrite sorted_perm.
  intros (c & -> & Hc)%list_elem_of_fmap. done.
Qed.

Lemma sorted_entries_elem_2 {A} (children : list entry) (g : entry → A) c :
  c ∈ children → (c, g c) ∈ sorted_entries (map (λ c, (c, g c)) children).
Proof.
  intros Hc. unfold sorted_entries. rewrite sorted_perm.
  by apply (list_elem_of_fmap_2 (λ c, (c, g c))).
Qed.

Lemma elem_of_concat {A} (x : A) (ls : list (list A)) :
  x ∈ concat ls ↔ ∃ l, l ∈ ls ∧ x ∈ l.
Proof.
  rewrite list_elem_of_In, in_concat. split.
  - intros (l & Hl & Hx). exists l. by rewrite !list_elem_of_In.
  - intros (l & Hl & Hx). exists l. by rewrite <- !list_elem_of_In.
Qed.

Lemma kept_below_file f e rel_dir rel :
  kept_below f e rel_dir rel → excluded f rel false = false.
Proof. induction 1; done. Qed.

Lemma iter_files_in_kept repo_root f e rel_dir rel abs_path :
  (rel, abs_path) ∈ iter_files_in repo_root f rel_dir e →
  kept_below f e rel_dir rel ∧ abs_path = path_join repo_root rel.
Proof.
  revert rel_dir.
  induction e as [name|name|name children IH] using entry_induction;
    intros rel_dir; [by intros ?%not_elem_of_nil..|].
  cbn [iter_files_in]. rewrite Forall_forall in IH.
  intros [Hfile|Hdir]%elem_of_app.
  - apply list_elem_of_fmap in Hfile as (cs & [= -> ->] & Hcs).
    apply list_elem_of_filter in Hcs as [[Hisdir Hex] Hcs].
    apply sorted_entries_elem in Hcs as [Hin _].
    destruct cs as [[name'|name' cs'] out]; [|done]. cbn [fst entry_name] in *.
    split; [by constructor|done].
  - apply elem_of_concat in Hdir as (l & Hl & Hitem).
    apply list_elem_of_fmap in Hl as (cs & -> & Hcs).
    apply list_elem_of_filter in Hcs as [[Hisdir Hex] Hcs].
    apply sorted_entries_elem in Hcs as [Hin Heq]. rewrite Heq in Hitem.
    destruct (IH _ Hin _ Hitem) as [Hkept Habs].
    split; [by eapply kept_dir|done].
Qed.

Lemma kept_below_iter_files_in repo_root f e rel_dir rel :
  kept_below f e rel_dir rel →
  (rel, path_join repo_root rel) ∈ iter_files_in repo_root f rel_dir e.
Proof.
  induction 1 as [dir children rel_dir name Hin Hex
                 |dir children rel_dir sub rel Hin Hisdir Hex _ IH];
    cbn [iter_files_in]; apply elem_of_app.
  - left.
    apply (list_elem_of_fmap_2'
             (λ cs : entry * list (string * string),
                (child_rel rel_dir (entry_name cs.1),
                 path_join repo_root (child_rel rel_dir (entry_name cs.1))))
             _ (File name, iter_files_in repo_root f
                             (child_rel rel_dir (entry_name (File name)))
                             (File name))); [|done].
    apply list_elem_of_filter. split; [done|].
    by apply (sorted_entries_elem_2 children
                (λ c, iter_files_in repo_root f
                        (child_rel rel_dir (entry_name c)) c)).
  - right. apply elem_of_concat.
    exists (iter_files_in repo_root f (child_rel rel_dir (entry_name sub)) sub).
    split; [|done].
    apply (list_elem_of_fmap_2' snd _
             (sub, iter_files_in repo_root f
                     (child_rel rel_dir (entry_name sub)) sub)); [|done].
    apply list_elem_of_filter. split; [done|].
    by apply (sorted_entries_elem_2 children
                (λ c, iter_files_in repo_root f
                        (child_rel rel_dir (entry_name c)) c)).
Qed.

(** X5. [iter_files] yields exactly the files of the directory structure
    that no filter rule excludes and that lie below directories none of
    which a filter rule excludes (so a pruned directory contributes
    nothing, whatever its files are), each with the root joined with its
    relative path as absolute path. *)
Theorem iter_files_kept repo_root f root :
  (∀ rel abs_path,
     (rel, abs_path) ∈ iter_files repo_root f root
     ↔ kept_below f root "" rel ∧ abs_path = path_join repo_root rel)
  ∧ Forall (λ item, excluded f item.1 false = false)
           (iter_files repo_root f root).
Proof.
  split.
  - intros rel abs_path. split; [apply iter_files_in_kept|].
    intros [Hkept ->]. by apply kept_below_iter_files_in.
  - apply Forall_forall. intros [rel abs_path] Hin.
    apply iter_files_in_kept in Hin as [Hkept _].
    by eapply kept_below_file.
Qed.

(** With an include glob, a directory that matches no include glob is
    pruned, and the files below it are not discovered. *)
Example iter_files_include_prunes :
  iter_files "/repo" (mkFilters DEFAULT_EXCLUDED_DIRS [] ["*.py"] [] [])
    (Dir "" (Some [File "setup.py"; Dir "src" (Some [File "engine.py"])]))
  = [("setup.py", "/repo/setup.py")].
Proof. vm_compute. reflexivity. Qed.

(** A file below a pruned directory is not kept, although no rule excludes
    the file itself. *)
Example pruned_directory_not_kept :
  let f := mkFilters DEFAULT_EXCLUDED_DIRS ["out/"] [] [] [] in
  let root := Dir "" (Some [Dir "out" (Some [File "a.py"]); File "b.py"]) in
  excluded f "out/a.py" false = false
  ∧ ¬ kept_below f root "" "out/a.py"
  ∧ iter_files "/repo" f root = [("b.py", "/repo/b.py")].
Proof.
  cbn zeta. split; [vm_compute; reflexivity|]. split; [|vm_compute; reflexivity].
  inversion 1 as [? ? ? name Hin Hex|? ? ? sub ? Hin Hisdir Hex Hbelow];
    simplify_eq.
  - apply elem_of_cons in Hin as [?|Hin]; [done|].
    apply elem_of_cons in Hin as [?|Hin]; [by simplify_eq|].
    by apply not_elem_of_nil in Hin.
  - apply elem_of_cons in Hin as [->|Hin]; [by vm_compute in Hex|].
    apply elem_of_cons in Hin as [->|Hin]; [done|].
    by apply not_elem_of_nil in Hin.
Qed.

(** *** Reading [.gitignore] *)

Lemma substring_all s n :
  (String.length s ≤ n)%nat → String.substring 0 n s = s.
Proof.
  revert n. induction s as [|c s IH]; intros [|n] Hn; cbn in *; try done; try lia.
  rewrite IH by lia. done.
Qed.

Lemma startswith_bang line :
  PyStr.startswith line "!" = true →
  line = String "!" (String.substring 1 (String.length line) line).
Proof.
  unfold PyStr.startswith. destruct line as [|c line]; [done|].
  cbn [String.prefix]. destruct (ascii_dec "!" c) as [<-|]; [|done].
  intros _. cbn [String.substring String.length]. by rewrite substring_all by lia.
Qed.

Lemma gitignore_lines_spec lines :
  let r := gitignore_lines lines in
  Forall (λ p, is_rule p ∧ PyStr.startswith p "!" = false
               ∧ ∃ line, line ∈ lines ∧ PyStr.strip line = p) r.1
  ∧ Forall (λ n, ∃ line, line ∈ lines ∧ PyStr.strip line = String "!" n) r.2
  ∧ (length r.1 + length r.2 ≤ length lines)%nat.
Proof.
  induction lines as [|line lines IH]; cbn [gitignore_lines].
  { cbn. repeat split; constructor. }
  destruct (gitignore_lines lines) as [pats negs]. cbn [fst snd] in IH.
  destruct IH as (Hp & Hn & Hlen).
  assert (Forall (λ p, is_rule p ∧ PyStr.startswith p "!" = false
            ∧ ∃ l, l ∈ line :: lines ∧ PyStr.strip l = p) pats) as Hp'.
  { eapply Forall_impl; [exact Hp|]. cbn. intros p (? & ? & l & ? & ?).
    split; [done|]. split; [done|]. exists l. split; [by right|done]. }
  assert (Forall (λ n, ∃ l, l ∈ line :: lines ∧ PyStr.strip l = String "!" n) negs)
    as Hn'.
  { eapply Forall_impl; [exact Hn|]. cbn. intros n (l & ? & ?).
    exists l. split; [by right|done]. }
  destruct (String.eqb_spec (PyStr.strip line) "") as [Hempty|Hne].
  { cbn [orb fst snd length]. split; [done|]. split; [done|]. lia. }
  destruct (PyStr.startswith (PyStr.strip line) "#") eqn:Hhash.
  { cbn [orb fst snd length]. split; [done|]. split; [done|]. lia. }
  cbn [orb]. destruct (PyStr.startswith (PyStr.strip line) "!") eqn:Hbang.
  - cbn [fst snd length]. split; [done|]. split; [|lia].
    constructor; [|done]. exists line. split; [left|].
    by apply startswith_bang.
  - cbn [fst snd length]. split; [|split; [done|lia]].
    constructor; [|done]. split; [done|]. split; [done|].
    exists line. split; [left|done].
Qed.

(** X6. A missing or unreadable [.gitignore] gives no patterns. Otherwise
    every pattern returned is a stripped line of the file that is neither
    blank, nor a comment, nor a negation; every negation pattern returned is
    a stripped line of the file without its leading [!]; and there are no
    more patterns than lines. *)
Theorem load_gitignore_rules file :
  let r := load_gitignore file in
  match file with
  | None => r = ([], [])
  | Some lines =>
      Forall (λ p, is_rule p ∧ PyStr.startswith p "!" = false
                   ∧ ∃ line, line ∈ lines ∧ PyStr.strip line = p) r.1
      ∧ Forall (λ n, ∃ line, line ∈ lines ∧ PyStr.strip line = String "!" n) r.2
      ∧ (length r.1 + length r.2 ≤ length lines)%nat
  end.
Proof. destruct file as [lines|]; [apply gitignore_lines_spec|done]. Qed.

(** *** The file cap *)

Lemma collect_files_acc max_files discovered files :
  collect_files max_files discovered files
  = (files ++ take (Z.to_nat (max_files - Z.of_nat (length files))) discovered,
     bool_decide (Z.max 0 (max_files - Z.of_nat (length files))
                  < Z.of_nat (length discovered))).
Proof.
  revert files. induction discovered as [|item rest IH]; intros files.
  { cbn. rewrite take_nil, app_nil_r. by rewrite bool_decide_false by lia. }
  cbn [collect_files].
  destruct (Z.geb_spec (Z.of_nat (length files)) max_files) as [Hfull|Hroom].
  - replace (Z.to_nat _) with 0%nat by lia. cbn [take].
    rewrite app_nil_r. by rewrite bool_decide_true by (cbn [length]; lia).
  - rewrite IH, length_app. cbn [length].
    replace (Z.to_nat (max_files - Z.of_nat (length files)))
      with (S (Z.to_nat (max_files - Z.of_nat (length files + 1)))) by lia.
    cbn [take]. rewrite <- (assoc_L (++)). cbn [app]. f_equal.
    apply bool_decide_ext. lia.
Qed.

(** X7. The candidates kept are the first [max_files] discovered files, none
    for a cap below one, and the files-truncated condition is raised exactly
    when more files were discovered than the cap allows. *)
Theorem collect_files_prefix max_files discovered :
  collect_files max_files discovered []
  = (take (Z.to_nat max_files) discovered,
     bool_decide (Z.max 0 max_files < Z.of_nat (length discovered))).
Proof.
  rewrite collect_files_acc. cbn [length app]. by rewrite Z.sub_0_r.
Qed.

(** *** The cut of the tree, for every cap *)

Lemma list_upto_prefix {A} (n : Z) (l : list A) : PyStr.list_upto n l `prefix_of` l.
Proof. unfold PyStr.list_upto. destruct (0 <=? n); apply prefix_take. Qed.

(** X8. Whatever the cap, also a negative one, the text [build_tree] returns
    is a prefix of the fully rendered tree; the flag is set exactly when the
    rendered tree is longer than the cap, and an unset flag comes with the
    whole tree. *)
Theorem cut_tree_prefix lines max_chars :
  let tree := PyStr.join newline_str lines in
  let r := cut_tree lines max_chars in
  PyStr.chars r.1 `prefix_of` PyStr.chars tree
  ∧ r.2 = bool_decide (max_chars < PyStr.len tree)
  ∧ (r.2 = true ∨ r.1 = tree).
Proof.
  cbn zeta. unfold cut_tree.
  destruct (Z.leb_spec (PyStr.len (PyStr.join newline_str lines)) max_chars).
  { cbn [fst snd]. split; [done|]. split; [|by right].
    by rewrite bool_decide_false by lia. }
  cbn [fst snd]. split; [|split; [by rewrite bool_decide_true by lia|by left]].
  destruct (_ >? 0).
  - unfold PyStr.upto. rewrite !chars_of_chars.
    etrans; apply list_upto_prefix.
  - unfold PyStr.upto. rewrite chars_of_chars. apply list_upto_prefix.
Qed.

(** *** Group keys *)

Lemma contains_slash_cons c s :
  PyStr.contains "/" (String c s) = Ascii.eqb c "/" || PyStr.contains "/" s.
Proof.
  cbn [PyStr.contains String.prefix].
  destruct (ascii_dec "/" c) as [<-|Hne].
  - by destruct s.
  - destruct (Ascii.eqb_spec c "/"); [congruence|done].
Qed.

Lemma split1_spec s :
  if PyStr.contains "/" s
  then ∃ before after, PyStr.split1 "/" s = [before; after]
         ∧ s = before +:+ "/" +:+ after ∧ PyStr.contains "/" before = false
  else PyStr.split1 "/" s = [s].
Proof.
  induction s as [|c s IH]; [done|].
  rewrite contains_slash_cons. cbn [PyStr.split1].
  destruct (Ascii.eqb_spec c "/") as [->|Hne]; cbn [orb].
  - by exists "", s.
  - destruct (PyStr.contains "/" s).
    + destruct IH as (before & after & -> & -> & Hb).
      exists (String c before), after. split; [done|]. split; [done|].
      rewrite contains_slash_cons, Hb.
      by destruct (Ascii.eqb_spec c "/").
    + by rewrite IH.
Qed.

(** X9. The group key of a path is its first segment: it holds no slash,
    and the path is the key itself or the key followed by a slash and the
    rest. *)
Theorem group_key_first_segment rel_path :
  PyStr.contains "/" (group_key rel_path) = false
  ∧ (rel_path = group_key rel_path
     ∨ ∃ rest, rel_path = group_key rel_path +:+ "/" +:+ rest).
Proof.
  unfold group_key. pose proof (split1_spec rel_path) as H.
  destruct (PyStr.contains "/" rel_path) eqn:Hc.
  - destruct H as (before & after & -> & -> & Hb). cbn.
    split; [done|]. right. by exists after.
  - split; [done|by left].
Qed.

(** *** Order inside the groups *)

Lemma sorted_id {A} (le : A → A → bool) l :
  Sorted (λ a b, le a b = true) l → sorted le l = l.
Proof.
  induction 1 as [|x l Hl IH Hx]; [done|].
  unfold sorted in *. cbn [foldr]. rewrite IH.
  destruct Hx as [|y l' Hxy]; [done|]. cbn. by rewrite Hxy.
Qed.

Lemma sorted_sorted {A} (le : A → A → bool) l :
  (∀ a b, le a b = true ∨ le b a = true) →
  sorted le (sorted le l) = sorted le l.
Proof. intros Htotal. by apply sorted_id, sorted_Sorted. Qed.

Lemma option_list_filter {A} (P : A → Prop) `{∀ x, Decision (P x)} (o : option A) :
  filter P (option_list o)
  = match o with Some x => if decide (P x) then [x] else [] | None => [] end.
Proof.
  destruct o as [x|]; [|done]. change (option_list (Some x)) with [x].
  by rewrite filter_cons, filter_nil.
Qed.

Lemma group_of_app files files' k :
  group_of (files ++ files') k = group_of files k ++ group_of files' k.
Proof. unfold group_of. apply filter_app. Qed.

Lemma group_of_option (o : option candidate) k :
  group_of (option_list o) k
  = match o with
    | Some item => if decide (group_key item.1 = k) then [item] else []
    | None => []
    end.
Proof. unfold group_of. apply option_list_filter. Qed.

(** The candidates of key [k] in round [r]. *)
Lemma group_of_round (g : string → list candidate) keys k r :
  NoDup keys →
  (∀ k' item, k' ∈ keys → item ∈ g k' → group_key item.1 = k') →
  group_of (round (map g keys) r) k
  = if decide (k ∈ keys) then option_list (g k !! r) else [].
Proof.
  intros Hnd Hkey. induction Hnd as [|k0 keys Hk0 Hnd IH].
  { by rewrite decide_False by apply not_elem_of_nil. }
  cbn [map]. rewrite round_cons, group_of_app.
  rewrite IH by (intros; apply Hkey; [by right|done]).
  destruct (decide (k0 = k)) as [->|Hne].
  - rewrite (decide_True (P := k ∈ k :: keys)) by left.
    rewrite (decide_False (P := k ∈ keys)) by done.
    rewrite app_nil_r, group_of_option.
    destruct (g k !! r) as [item|] eqn:Hitem; [|done].
    rewrite decide_True; [done|]. apply (Hkey k); [left|].
    by eapply list_elem_of_lookup_2.
  - assert (group_of (option_list (g k0 !! r)) k = []) as ->.
    { rewrite group_of_option.
      destruct (g k0 !! r) as [item|] eqn:Hitem; [|done].
      rewrite decide_False; [done|]. intros Hk. apply Hne. rewrite <- Hk.
      symmetry. apply (Hkey k0); [left|]. by eapply list_elem_of_lookup_2. }
    cbn [app]. destruct (decide (k ∈ keys)) as [Hin|Hin].
    + rewrite (decide_True (P := k ∈ k0 :: keys)); [done|by right].
    + rewrite (decide_False (P := k ∈ k0 :: keys)); [done|].
      intros [?|?]%elem_of_cons; [congruence|done].
Qed.

Lemma group_of_rounds (g : string → list candidate) keys k n :
  NoDup keys →
  (∀ k' item, k' ∈ keys → item ∈ g k' → group_key item.1 = k') →
  group_of (concat (map (round (map g keys)) (seq 0 n))) k
  = if decide (k ∈ keys) then take n (g k) else [].
Proof.
  intros Hnd Hkey. induction n as [|n IH].
  { cbn. by case_decide. }
  rewrite seq_S, map_app, concat_app, group_of_app, IH.
  cbn [map concat]. rewrite app_nil_r, group_of_round by done.
  change (0 + n)%nat with n.
  case_decide; [|done].
  destruct (g k !! n) as [x|] eqn:Hx.
  - rewrite (take_S_r _ _ x) by done. reflexivity.
  - apply lookup_ge_None in Hx.
    change (option_list None) with (@nil candidate).
    rewrite app_nil_r, !take_ge by lia. done.
Qed.

Lemma sorted_group_key files k item :
  item ∈ sorted scan_le (group_of files k) → group_key item.1 = k.
Proof.
  rewrite sorted_perm. unfold group_of.
  by intros [? _]%list_elem_of_filter.
Qed.

Lemma group_of_reorder files k :
  group_of (reorder_files_for_scan files) k = sorted scan_le (group_of files k).
Proof.
  rewrite reorder_interleave. unfold interleave, scan_groups.
  destruct (group_keys_spec files) as [Hnd Hin].
  rewrite (group_of_rounds (λ k, sorted scan_le (group_of files k)))
    by (done || intros k' item _; apply sorted_group_key).
  case_decide as Hk.
  - apply take_ge.
    assert (In (sorted scan_le (group_of files k))
              (map (λ k, sorted scan_le (group_of files k)) (group_keys files)))
      as Hg by (apply in_map_iff; exists k; by rewrite <- list_elem_of_In).
    clear -Hg. induction (map _ _) as [|g gs IH]; [done|].
    change (max_length (g :: gs)) with (length g `max` max_length gs)%nat.
    destruct Hg as [->|Hg]; [lia|]. specialize (IH Hg). lia.
  - symmetry. destruct (group_of files k) as [|item l] eqn:Hg; [done|].
    exfalso. apply Hk, Hin. exists item.
    assert (item ∈ group_of files k) as Hi by (rewrite Hg; left).
    apply list_elem_of_filter in Hi. by destruct Hi.
Qed.


Lemma group_keys_perm files files' :
  files ≡ₚ files' → group_keys files = group_keys files'.
Proof.
  intros Hperm.
  destruct (group_keys_spec files) as [Hnd Hin].
  destruct (group_keys_spec files') as [Hnd' Hin'].
  apply (StronglySorted_unique String.le); [apply group_keys_sorted..|].
  apply NoDup_Permutation; [done..|].
  intros k. rewrite Hin, Hin'. by setoid_rewrite Hperm.
Qed.

Lemma reorder_files_perm files : reorder_files_for_scan files ≡ₚ files.
Proof.
  rewrite reorder_interleave, interleave_perm. unfold scan_groups.
  rewrite concat_sorted_perm.
  destruct (group_keys_spec files) as [Hnd Hin].
  apply concat_groups_perm; [done|].
  intros item Hitem. apply Hin. by exists item.
Qed.

(** X11. Reordering is idempotent: the scan order of a scan order is that
    scan order. *)
Theorem reorder_idempotent files :
  reorder_files_for_scan (reorder_files_for_scan files)
  = reorder_files_for_scan files.
Proof.
  rewrite (reorder_interleave (reorder_files_for_scan files)).
  rewrite (reorder_interleave files) at 2. f_equal.
  unfold scan_groups.
  rewrite (group_keys_perm _ files) by apply reorder_files_perm.
  apply map_ext. intros k.
  rewrite group_of_reorder. apply sorted_sorted, scan_le_total.
Qed.

(** *** What the scan loop records *)

Lemma record_scan_file_infos args rel_path r st :
  file_infos (record_scan args rel_path r st) = file_infos st.
Proof.
  destruct r as [[[lc fs] br] tr]. unfold record_scan.
  by destruct (accept_symbols _ _ _ _).
Qed.

Lemma scan_step_file_infos args os st item :
  file_infos (scan_step args os st item)
  = file_infos st ++ option_list (stat os item).
Proof.
  destruct item as [rel_path abs_path]. unfold scan_step, stat. cbn [fst snd].
  destruct (getsize os abs_path); [|by rewrite app_nil_r].
  destruct (getmtime os abs_path); [|by rewrite app_nil_r].
  destruct (_ && _); [|done]. by rewrite record_scan_file_infos.
Qed.

Lemma fold_file_infos args os files st :
  file_infos (fold_left (scan_step args os) files st)
  = file_infos st ++ omap (stat os) files.
Proof.
  revert st. induction files as [|item files IH]; intros st.
  { by rewrite app_nil_r. }
  cbn [fold_left]. rewrite IH, scan_step_file_infos, omap_cons.
  by rewrite <- app_assoc.
Qed.

(** X12. The list of file entries holds every candidate that can be stat'd,
    once and in scan order, whatever the byte, line and symbol budgets are
    and whether the file was scanned or not. *)
Theorem scan_all_file_infos args os files :
  file_infos (scan_all args os files) = omap (stat os) files.
Proof. unfold scan_all. by rewrite fold_file_infos. Qed.

(** *** The total-bytes flag *)

Lemma record_scan_total_flag args rel_path r st :
  total_bytes_truncated (record_scan args rel_path r st)
  = (total_bytes st + r.1.2 >=? max_total_bytes args)
    || total_bytes_truncated st.
Proof.
  destruct r as [[[lc fs] br] tr]. unfold record_scan.
  destruct (accept_symbols _ _ _ _). cbn [total_bytes_truncated fst snd].
  destruct (_ >=? _); [done|]. by rewrite andb_false_r.
Qed.

Lemma scan_file_bytes_nonneg os rel_path abs_path kb mfb msl rem :
  0 ≤ (scan_file os rel_path abs_path kb mfb msl rem).1.2.
Proof.
  unfold scan_file. destruct (_ >? _); [done|].
  destruct (read_lines os abs_path) as [lines|]; [|done]. cbn [fst snd].
  by apply (scan_lines_truncated rel_path mfb msl rem lines
              (mkScan _ [] 0 0 false)); [| |left].
Qed.

Lemma scan_step_total_inv args os st item :
  total_inv args st → total_inv args (scan_step args os st item).
Proof.
  intros [Hpos Hst].
  destruct item as [rel_path abs_path]. unfold scan_step.
  destruct (getsize os abs_path); [|done].
  destruct (getmtime os abs_path); [|done]. cbn [total_bytes].
  destruct (should_scan rel_path); cbn [andb]; [|done].
  destruct (Z.ltb_spec (total_bytes st) (max_total_bytes args)) as [Hlt|Hge];
    [|done].
  unfold total_inv.
  rewrite record_scan_total_flag, record_scan_total.
  cbn [total_bytes total_bytes_truncated]. rewrite Hst.
  rewrite (bool_decide_false (0 < _ ≤ total_bytes st)) by lia.
  rewrite orb_false_r.
  pose proof (scan_file_bytes_nonneg os rel_path abs_path (max_file_kb args)
    (max_file_bytes args) (max_scan_lines args)
    (max_total_bytes args - total_bytes st)) as Hb.
  split; [lia|].
  destruct (Z.geb_spec (total_bytes st + (scan_file os rel_path abs_path
      (max_file_kb args) (max_file_bytes args) (max_scan_lines args)
      (max_total_bytes args - total_bytes st)).1.2) (max_total_bytes args)).
  - by rewrite bool_decide_true by lia.
  - by rewrite bool_decide_false by lia.
Qed.

Lemma fold_total_inv args os files st :
  total_inv args st → total_inv args (fold_left (scan_step args os) files st).
Proof.
  revert st. induction files as [|item files IH]; intros st Hst; [done|].
  cbn [fold_left]. by apply IH, scan_step_total_inv.
Qed.

(** X13. The bytes a run has consumed are never negative, and the
    total-bytes flag is set exactly when the cap is positive and the
    consumed bytes have reached it: with a cap of zero or less nothing is
    scanned and the flag stays unset. *)
Theorem scan_all_total_flag args os files :
  let st := scan_all args os files in
  0 ≤ total_bytes st
  ∧ total_bytes_truncated st
    = bool_decide (0 < max_total_bytes args ≤ total_bytes st).
Proof.
  apply fold_total_inv. split; [done|].
  cbn. by rewrite bool_decide_false by lia.
Qed.

(** *** Line counts *)

Lemma scan_lines_count_range rel_path mfb msl rem lines st :
  s_line_count st
  ≤ s_line_count (scan_lines rel_path mfb msl rem lines st)
  ≤ s_line_count st + Z.of_nat (length lines).
Proof.
  revert st. induction lines as [|line rest IH]; intros st; [cbn; lia|].
  cbn [scan_lines s_line_count s_bytes_read s_patterns s_symbols s_truncated
       length].
  repeat case_match; cbn [set_truncated s_line_count]; try lia.
  match goal with |- context [scan_lines _ _ _ _ _ ?s] => specialize (IH s) end.
  rewrite match_line_count in IH. cbn [s_line_count] in IH. lia.
Qed.

Lemma record_scan_line_counts args rel_path r st :
  line_counts (record_scan args rel_path r st)
  = match r.1.1.1 with
    | Some n => <[rel_path := n]> (line_counts st)
    | None => line_counts st
    end.
Proof.
  destruct r as [[[lc fs] br] tr]. unfold record_scan.
  by destruct (accept_symbols _ _ _ _).
Qed.

Lemma counted_mono args os files files' path n :
  files ⊆ files' → counted args os files path n → counted args os files' path n.
Proof.
  intros Hsub (Hn & Hscan & abs_path & lines & Hin & H).
  split; [done|]. split; [done|]. exists abs_path, lines.
  split; [by apply Hsub|done].
Qed.

Lemma scan_step_counted args os files st item :
  item ∈ files →
  map_Forall (counted args os files) (line_counts st) →
  map_Forall (counted args os files) (line_counts (scan_step args os st item)).
Proof.
  intros Hin Hst. destruct item as [rel_path abs_path]. unfold scan_step.
  destruct (getsize os abs_path) as [size|] eqn:Hsize; [|done].
  destruct (getmtime os abs_path) as [mtime|] eqn:Hmtime; [|done].
  cbn [total_bytes].
  destruct (should_scan rel_path) eqn:Hscan; cbn [andb]; [|done].
  destruct (_ <? _); [|done].
  rewrite record_scan_line_counts. cbn [line_counts].
  unfold scan_file. destruct (_ >? _); [done|].
  destruct (read_lines os abs_path) as [lines|] eqn:Hlines; [|done].
  cbn [fst snd]. apply map_Forall_insert_2; [|done].
  pose proof (scan_lines_count_range rel_path (max_file_bytes args)
    (max_scan_lines args) (max_total_bytes args - total_bytes st) lines
    (mkScan (assoc_get SYMBOL_PATTERNS (PyStr.lower (PyStr.splitext_ext rel_path)))
            [] 0 0 false)) as Hr.
  pose proof (scan_lines_line_count rel_path (max_file_bytes args)
    (max_scan_lines args) (max_total_bytes args - total_bytes st) lines
    (mkScan (assoc_get SYMBOL_PATTERNS (PyStr.lower (PyStr.splitext_ext rel_path)))
            [] 0 0 false)) as Hc.
  cbn [s_line_count] in Hr, Hc.
  split; [lia|]. split; [done|]. exists abs_path, lines.
  rewrite Hsize, Hmtime. repeat split; [done..|lia].
Qed.

Lemma fold_counted args os files todo st :
  todo ⊆ files →
  map_Forall (counted args os files) (line_counts st) →
  map_Forall (counted args os files)
    (line_counts (fold_left (scan_step args os) todo st)).
Proof.
  revert st. induction todo as [|item todo IH]; intros st Hsub Hst; [done|].
  cbn [fold_left]. apply IH.
  - intros x Hx. apply Hsub. by right.
  - apply scan_step_counted; [|done]. apply Hsub. left.
Qed.

(** X14. Every line count the run records belongs to a candidate that was
    eligible for scanning, could be stat'd and was readable; the count lies
    between zero and one more than the line cap, and is never more than the
    number of lines of the file. *)
Theorem scan_all_line_counts args os files :
  map_Forall (counted args os files) (line_counts (scan_all args os files)).
Proof. apply fold_counted; [done|]. apply map_Forall_empty. Qed.

(** *** Scores *)

(** X15. The reason [score_file] gives is one of six, and it is [other]
    exactly for a file without a name signal, off the core paths, that has
    fewer than 400 recorded lines or none. *)
Theorem score_file_other line_counts path :
  let r := score_file line_counts path in
  r.2 ∈ ["config"; "readme"; "entrypoint"; "core"; "large"; "other"]
  ∧ (r.2 = "other"
     ↔ named path = false ∧ core_path path = false
       ∧ lines_of line_counts path < 400).
Proof.
  cbn zeta. unfold score_file, named, lines_of.
  set (base := PyStr.lower (PyStr.basename path)).
  destruct (mem base IMPORTANT_FILENAMES), (PyStr.startswith base "readme"),
    (mem base ENTRYPOINT_FILENAMES), (core_path path);
    cbn [orb String.eqb Ascii.eqb Bool.eqb];
    (destruct (line_counts !! path) as [n|]; cbn [fst snd default from_option id];
     [destruct (Z.geb_spec n 400)|]);
    (split; [set_solver|]); (split; [try done; intros _|intros (? & ? & ?)]);
    try done; try lia; by repeat split.
Qed.

Lemma min_div_bounds n : 0 ≤ n → 0 ≤ Z.min (n / 50) 40 ≤ 40.
Proof. intros Hn. pose proof (Z.div_pos n 50 Hn). lia. Qed.

Lemma score_file_named line_counts path :
  named path = true → 0 ≤ lines_of line_counts path →
  60 ≤ (score_file line_counts path).1.
Proof.
  unfold score_file, named, lines_of.
  set (base := PyStr.lower (PyStr.basename path)).
  intros Hnamed Hn.
  destruct (mem base IMPORTANT_FILENAMES), (PyStr.startswith base "readme"),
    (mem base ENTRYPOINT_FILENAMES), (core_path path); try done;
    cbn [orb String.eqb Ascii.eqb Bool.eqb];
    (destruct (line_counts !! path) as [n|]; cbn [fst snd default from_option id] in *;
     [pose proof (min_div_bounds n Hn)|]); lia.
Qed.

Lemma score_file_unnamed line_counts path :
  named path = false → (score_file line_counts path).1 ≤ 55.
Proof.
  unfold score_file, named.
  set (base := PyStr.lower (PyStr.basename path)).
  intros Hnamed.
  destruct (mem base IMPORTANT_FILENAMES), (PyStr.startswith base "readme"),
    (mem base ENTRYPOINT_FILENAMES); try done;
    destruct (core_path path); cbn [orb String.eqb Ascii.eqb Bool.eqb];
    (destruct (line_counts !! path) as [n|]; cbn [fst snd]); lia.
Qed.

(** X16. A file with a name signal (an important file name, a name that
    starts with readme, an entry-point name) scores higher than any file
    without one, whatever their paths and sizes are, as long as its
    recorded line count is not negative. *)
Theorem score_file_named_first line_counts path path' :
  named path = true → named path' = false →
  0 ≤ lines_of line_counts path →
  (score_file line_counts path').1 < (score_file line_counts path).1.
Proof.
  intros Hn Hn' Hlines.
  pose proof (score_file_named line_counts path Hn Hlines).
  pose proof (score_file_unnamed line_counts path' Hn'). lia.
Qed.

Lemma score_file_named_first_witness :
  (score_file (<["src/core/engine.swift" := 4001]> ∅) "src/core/engine.swift").1
  < (score_file (<["src/core/engine.swift" := 4001]> ∅) "package.json").1.
Proof.
  apply score_file_named_first; vm_compute; (reflexivity || discriminate).
Defined.

(** *** Top files *)

Lemma list_upto_slice_length {A} (n : Z) (l : list A) :
  Z.of_nat (length (PyStr.list_upto n l)) = slice_length n (length l).
Proof.
  unfold PyStr.list_upto, slice_length.
  destruct (Z.leb_spec 0 n); rewrite length_take; lia.
Qed.

Lemma StronglySorted_prefix {A} (R : relation A) l l' :
  l' `prefix_of` l → StronglySorted R l → StronglySorted R l'.
Proof. intros [rest ->]. apply StronglySorted_app_1_l. Qed.

Lemma StronglySorted_sublist {A} (R : relation A) l l' :
  l' `sublist_of` l → StronglySorted R l → StronglySorted R l'.
Proof.
  induction 1 as [|x l1 l2 Hsub IH|x l1 l2 Hsub IH]; intros Hs; [done|..].
  - apply StronglySorted_inv in Hs as [Hs Hx]. constructor; [by apply IH|].
    rewrite Forall_forall in Hx. apply Forall_forall. intros y Hy.
    apply Hx. by eapply elem_of_sublist.
  - apply StronglySorted_inv in Hs as [Hs Hx]. by apply IH.
Qed.

Lemma StronglySorted_fmap_Forall {A B} (f : A → B) (P : A → Prop)
    (R1 : relation A) (R2 : relation B) l :
  (∀ x y, P x → P y → R1 x y → R2 (f x) (f y)) →
  Forall P l → StronglySorted R1 l → StronglySorted R2 (f <$> l).
Proof.
  intros HR HP Hs. induction Hs as [|x l Hs IH Hx]; csimpl; [constructor|].
  apply Forall_cons in HP as [HPx HP]. constructor; [by apply IH|].
  rewrite Forall_fmap. rewrite Forall_forall in Hx, HP.
  apply Forall_forall. intros y Hy. apply HR; auto.
Qed.

Section order.
Context {A : Type} (key : A → Z * string).

Lemma neg_then_path_le_spec a b :
  neg_then_path_le (key a) (key b) = true ↔ key_before key a b.
Proof.
  unfold neg_then_path_le, key_before, String.le.
  destruct (Z.ltb_spec (- (key a).1) (- (key b).1)); cbn [orb].
  { split; [left; lia|done]. }
  destruct (Z.eqb_spec (- (key a).1) (- (key b).1)); cbn [andb].
  - split.
    + intros Hle. right. split; [lia|]. by rewrite Hle.
    + intros [?|[_ Hle]]; [lia|]. by destruct (String.leb _ _).
  - split; [done|]. intros [?|[? _]]; lia.
Qed.

Lemma neg_then_path_le_total a b :
  neg_then_path_le (key a) (key b) = true
  ∨ neg_then_path_le (key b) (key a) = true.
Proof.
  rewrite !neg_then_path_le_spec. unfold key_before.
  destruct (Z.lt_trichotomy (key a).1 (key b).1) as [?|[?|?]];
    [by right; left| |by left; left].
  destruct (total String.le (key a).2 (key b).2);
    [left|right]; right; by split.
Qed.

Global Instance key_before_trans : Transitive (key_before key).
Proof.
  intros a b c. unfold key_before.
  intros [?|[? Hab]] [?|[? Hbc]]; try (left; lia).
  right. split; [lia|]. by etrans.
Qed.

Lemma sorted_key_before l :
  StronglySorted (key_before key)
    (sorted (λ a b, neg_then_path_le (key a) (key b)) l).
Proof.
  apply Sorted_StronglySorted; [apply _|].
  pose proof (sorted_Sorted (λ a b, neg_then_path_le (key a) (key b))
                neg_then_path_le_total l) as Hs.
  induction Hs as [|x l' Hl IH Hx]; constructor; [done|].
  destruct Hx as [|y l'' Hy]; constructor. by apply neg_then_path_le_spec.
Qed.
End order.

(** X17. The top files are ordered by decreasing score and, at equal score,
    by path; each one is a stat'd file with the reason [score_file] gives for
    it; and their number is the length of the slice of the stat'd files by
    [max_top_files]. *)
Theorem top_files_ranked args st :
  let tops := top_files_of args st in
  StronglySorted (ranked_before (line_counts st)) (top_path <$> tops)
  ∧ Forall (λ t, top_path t ∈ info_path <$> file_infos st
                 ∧ top_reason t = (score_file (line_counts st) (top_path t)).2)
           tops
  ∧ Z.of_nat (length tops)
    = slice_length (max_top_files args) (length (file_infos st)).
Proof.
  cbn zeta. unfold top_files_of.
  set (lc := line_counts st).
  set (scored := map _ (file_infos st)).
  set (key := λ x : Z * string * string, (x.1.1, x.1.2)).
  set (P := λ x : Z * string * string,
              x.1.1 = (score_file lc x.1.2).1 ∧ x.2 = (score_file lc x.1.2).2
              ∧ x.1.2 ∈ info_path <$> file_infos st).
  assert (Forall P scored) as Hscored.
  { subst scored. apply Forall_forall. intros x Hx.
    apply list_elem_of_In, in_map_iff in Hx as (info & <- & Hin).
    apply list_elem_of_In in Hin.
    destruct (score_file lc (info_path info)) as [score reason] eqn:Hsc.
    unfold P. cbn [fst snd]. rewrite Hsc. cbn [fst snd].
    split; [done|]. split; [done|]. by apply list_elem_of_fmap_2. }
  set (ordered := sorted _ scored).
  assert (Forall P ordered) as Hordered.
  { subst ordered. by rewrite sorted_perm. }
  assert (StronglySorted (key_before key) ordered) as Hsorted.
  { apply (sorted_key_before key). }
  destruct (list_upto_prefix (max_top_files args) ordered) as [rest Hrest].
  assert (Forall P (PyStr.list_upto (max_top_files args) ordered)) as Hcut.
  { rewrite Hrest in Hordered. by apply Forall_app in Hordered as [? _]. }
  split; [|split].
  - change (map (λ x : Z * string * string, mkTop x.1.2 x.2)
              (PyStr.list_upto (max_top_files args) ordered))
      with ((λ x : Z * string * string, mkTop x.1.2 x.2)
              <$> PyStr.list_upto (max_top_files args) ordered).
    rewrite <- list_fmap_compose.
    apply (StronglySorted_fmap_Forall _ P (key_before key)); [|done|].
    + intros x y (Hx & _) (Hy & _). unfold key_before, ranked_before, key.
      cbn [fst snd compose top_path]. by rewrite Hx, Hy.
    + eapply StronglySorted_prefix; [|exact Hsorted]. by exists rest.
  - apply Forall_forall. intros t Ht.
    apply list_elem_of_In, in_map_iff in Ht as (x & <- & Hin).
    apply list_elem_of_In in Hin. rewrite Forall_forall in Hcut.
    destruct (Hcut x Hin) as (_ & Hr & Hp). by cbn [top_path top_reason].
  - rewrite length_map, list_upto_slice_length. subst ordered scored.
    by rewrite sorted_length, length_map.
Qed.

(** *** Hotspots *)

Lemma hotspots_loop_spec max_hotspots items hotspots :
  ∃ selected,
    selected `sublist_of` items
    ∧ hotspots_loop max_hotspots items hotspots
      = hotspots ++ map (λ pc, mkHot pc.1 (signals_of pc.1 pc.2)) selected
    ∧ Forall (λ pc, signals_of pc.1 pc.2 ≠ []) selected
    ∧ Z.of_nat (length (hotspots_loop max_hotspots items hotspots))
      ≤ Z.max max_hotspots (Z.of_nat (length hotspots)).
Proof.
  revert hotspots. induction items as [|[path count] items IH]; intros hotspots.
  { exists []. cbn. rewrite app_nil_r. repeat split; [done|constructor|lia]. }
  cbn [hotspots_loop].
  destruct (Z.geb_spec (Z.of_nat (length hotspots)) max_hotspots).
  { exists []. cbn. rewrite app_nil_r.
    repeat split; [apply sublist_nil_l|constructor|lia]. }
  fold (signals_of path count).
  destruct (signals_of path count) as [|signal signals] eqn:Hsig.
  - destruct (IH hotspots) as (selected & Hsub & Heq & Hall & Hlen).
    exists selected. split; [by apply sublist_cons|]. done.
  - destruct (IH (hotspots ++ [mkHot path (signal :: signals)]))
      as (selected & Hsub & Heq & Hall & Hlen).
    exists ((path, count) :: selected). split; [by apply sublist_skip|].
    split; [|split].
    + rewrite Heq. cbn [map fst snd]. rewrite Hsig.
      by rewrite <- (assoc_L (++)).
    + constructor; [|done]. cbn [fst snd]. by rewrite Hsig.
    + rewrite length_app in Hlen. cbn [length] in Hlen. lia.
Qed.

(** X18. The hotspots are at most [max_hotspots] (none when that is zero or
    less), each a scanned path listed once, with at least 400 recorded lines
    or on a core path, and carrying exactly the signals this gives; they are
    ordered by decreasing line count and, at equal count, by path. *)
Theorem hotspots_listed args st :
  let hotspots := hotspots_of args st in
  Z.of_nat (length hotspots) ≤ Z.max (max_hotspots args) 0
  ∧ NoDup (hot_path <$> hotspots)
  ∧ Forall (hotspot_of (line_counts st)) hotspots
  ∧ StronglySorted (hotter (line_counts st)) hotspots.
Proof.
  cbn zeta. unfold hotspots_of.
  set (lc := line_counts st).
  set (key := λ x : string * Z, (x.2, x.1)).
  set (items := sorted _ (map_to_list lc)).
  destruct (hotspots_loop_spec (max_hotspots args) items [])
    as (selected & Hsub & Heq & Hall & Hlen).
  split; [cbn [length] in Hlen; lia|].
  rewrite Heq. cbn [app].
  change (map (λ pc : string * Z, mkHot pc.1 (signals_of pc.1 pc.2)) selected)
    with ((λ pc : string * Z, mkHot pc.1 (signals_of pc.1 pc.2)) <$> selected).
  assert (items ≡ₚ map_to_list lc) as Hperm by apply sorted_perm.
  assert (Forall (λ pc, lc !! pc.1 = Some pc.2) selected) as Hlook.
  { apply Forall_forall. intros [path count] Hin.
    apply elem_of_map_to_list. rewrite <- Hperm.
    by eapply elem_of_sublist. }
  split; [|split].
  - rewrite <- list_fmap_compose.
    apply (sublist_NoDup _ (items.*1)); [|by apply fmap_sublist].
    rewrite Hperm. apply NoDup_fst_map_to_list.
  - apply Forall_fmap. rewrite Forall_forall in Hall, Hlook.
    apply Forall_forall. intros [path count] Hin.
    exists count. cbn [compose hot_path hot_signals fst snd].
    split; [by apply (Hlook (path, count))|]. split; [done|].
    specialize (Hall _ Hin). cbn [fst snd] in Hall.
    unfold signals_of in Hall.
    destruct (Z.geb_spec count 400); [by left|].
    destruct (core_path path); [by right|done].
  - apply (StronglySorted_fmap_Forall _ (λ pc, lc !! pc.1 = Some pc.2)
             (key_before key)); [|done|].
    + intros x y Hx Hy. unfold key_before, hotter, lines_of, key.
      cbn [hot_path fst snd]. by rewrite Hx, Hy.
    + eapply StronglySorted_sublist; [exact Hsub|].
      apply (sorted_key_before key).
Qed.

(** *** The notes of a report *)

Lemma note_elem x flag text : x ∈ note flag text ↔ flag = true ∧ x = text.
Proof.
  unfold note. destruct flag.
  - rewrite list_elem_of_singleton. split; [by intros ->|by intros [_ ->]].
  - split; [by intros ?%not_elem_of_nil|by intros [? _]].
Qed.

Lemma note_sublist flag text : note flag text `sublist_of` [text].
Proof. destruct flag; [done|apply sublist_nil_l]. Qed.

Lemma notes_sublist flag text l texts :
  l `sublist_of` texts → note flag text ++ l `sublist_of` text :: texts.
Proof.
  intros Hl. change (text :: texts) with ([text] ++ texts).
  apply sublist_app; [apply note_sublist|done].
Qed.

Lemma main_out_notes args w :
  let f := filters_of args w in
  let st := scan_all args (w_os w) (files_for_scan args w) in
  out_notes (main args w)
  = note (build_tree (w_root w) (max_tree_depth args) (max_tree_chars args) f).2
         "tree truncated"
    ++ note (symbols_truncated st) "symbols truncated"
    ++ note (collect_files (max_files args)
               (iter_files (repo_root args) f (w_root w)) []).2
            "files truncated"
    ++ note (file_bytes_truncated st) "file bytes truncated"
    ++ note (total_bytes_truncated st) "total bytes truncated"
    ++ note (Z.of_nat (length (top_files_of args st)) >=? max_top_files args)
            "top_files truncated"
    ++ note (Z.of_nat (length (hotspots_of args st)) >=? max_hotspots args)
            "hotspots truncated"
    ++ note (negb (bool_decide ((load_gitignore (w_gitignore w)).1 = [])))
            ".gitignore patterns applied (basic)"
    ++ note (String.eqb (w_git_head w) "") "git head unavailable".
Proof.
  unfold main, files_for_scan, filters_of.
  destruct (load_gitignore _) as [gp gn].
  destruct (collect_files _ _ _) as [files ft]. cbn [fst snd].
  by destruct (build_tree _ _ _ _) as [tree tt].
Qed.

Lemma top_files_of_length args st :
  Z.of_nat (length (top_files_of args st))
  = slice_length (max_top_files args) (length (file_infos st)).
Proof.
  unfold top_files_of.
  by rewrite length_map, list_upto_slice_length, sorted_length, length_map.
Qed.

Ltac note_iff :=
  rewrite !elem_of_app, !note_elem;
  split;
    [ intros H; decompose [or and] H; clear H; (done || discriminate)
    | intros H; tauto ].

(** X19. The notes of a report are a selection of the nine fixed notes, in
    their fixed order. The files note appears exactly when more files were
    discovered than [max_files] allows; the tree note exactly when the
    rendered tree is longer than [max_tree_chars]; the total-bytes note
    exactly when a positive byte cap was reached; the top-files note exactly
    when there are at least [max_top_files] stat'd files, also when none
    was left out; the git note exactly when no head was found. *)
Theorem main_notes args w :
  let out := main args w in
  let f := filters_of args w in
  let found := iter_files (repo_root args) f (w_root w) in
  let st := scan_all args (w_os w) (files_for_scan args w) in
  let tree := PyStr.join newline_str (walk (max_tree_depth args) f "" 0 (w_root w)) in
  out_notes out `sublist_of` ALL_NOTES
  ∧ ("files truncated" ∈ out_notes out
     ↔ Z.max 0 (max_files args) < Z.of_nat (length found))
  ∧ ("tree truncated" ∈ out_notes out ↔ max_tree_chars args < PyStr.len tree)
  ∧ ("total bytes truncated" ∈ out_notes out
     ↔ 0 < max_total_bytes args ≤ total_bytes st)
  ∧ ("top_files truncated" ∈ out_notes out
     ↔ max_top_files args ≤ Z.of_nat (length (file_infos st)))
  ∧ ("git head unavailable" ∈ out_notes out ↔ w_git_head w = "").
Proof.
  cbn zeta. rewrite main_out_notes. cbn zeta.
  set (st := scan_all _ _ _).
  split; [|split; [|split; [|split; [|split]]]].
  - unfold ALL_NOTES. do 8 apply notes_sublist. apply note_sublist.
  - rewrite collect_files_acc. cbn [snd length]. rewrite Z.sub_0_r.
    etrans; [|apply bool_decide_eq_true]. note_iff.
  - unfold build_tree, cut_tree.
    destruct (Z.leb_spec (PyStr.len (PyStr.join newline_str
      (walk (max_tree_depth args) (filters_of args w) "" 0 (w_root w))))
      (max_tree_chars args)) as [Hle|Hlt]; cbn [snd].
    + transitivity False; [note_iff|lia].
    + transitivity True; [note_iff|]. split; [by intros _|done].
  - destruct (fold_total_inv args (w_os w) (files_for_scan args w) ledger0)
      as [_ Hflag].
    { split; [done|]. cbn. by rewrite bool_decide_false by lia. }
    fold (scan_all args (w_os w) (files_for_scan args w)) in Hflag.
    fold st in Hflag. rewrite Hflag.
    etrans; [|apply bool_decide_eq_true]. note_iff.
  - rewrite top_files_of_length.
    assert ((slice_length (max_top_files args) (length (file_infos st))
               >=? max_top_files args) = true
            ↔ max_top_files args ≤ Z.of_nat (length (file_infos st))) as <-.
    { unfold slice_length. rewrite Z.geb_leb, Z.leb_le.
      destruct (Z.leb_spec 0 (max_top_files args)); lia. }
    note_iff.
  - etrans; [|apply String.eqb_eq]. note_iff.
Qed.

(** *** The reported symbols *)

Lemma string_ltb_spec a b :
  String.ltb a b = true ↔ String.le a b ∧ a ≠ b.
Proof.
  unfold String.ltb, String.le, String.leb.
  destruct (String.compare a b) eqn:Hc.
  - apply String.compare_eq_iff in Hc. split; [done|]. by intros [_ ?].
  - split; [|done]. intros _. split; [done|]. intros ->.
    pose proof (String.compare_antisym b b) as Ha. rewrite Hc in Ha. done.
  - split; [done|]. by intros [? _].
Qed.

Lemma symbol_le_spec a b : symbol_le a b = true ↔ symbol_before a b.
Proof.
  unfold symbol_le, symbol_before.
  rewrite orb_true_iff, andb_true_iff, orb_true_iff, andb_true_iff.
  rewrite string_ltb_spec, String.eqb_eq, Z.ltb_lt, Z.eqb_eq.
  unfold String.le at 3. split.
  - intros [?|[? [?|[? Hn]]]]; [by left|right; split; [done|by left]|].
    right. split; [done|]. right. split; [done|]. by rewrite Hn.
  - intros [?|[? [?|[? Hn]]]]; [by left|right; split; [done|by left]|].
    right. split; [done|]. right. split; [done|].
    by destruct (String.leb _ _).
Qed.

Lemma symbol_le_total a b : symbol_le a b = true ∨ symbol_le b a = true.
Proof.
  rewrite !symbol_le_spec. unfold symbol_before.
  destruct (decide (sym_path a = sym_path b)) as [Hp|Hp].
  - destruct (Z.lt_trichotomy (sym_line a) (sym_line b)) as [?|[?|?]];
      [left; right; split; [done|by left]|
      |right; right; split; [done|by left]].
    destruct (total String.le (sym_name a) (sym_name b)).
    + left. right. split; [done|]. right. by split.
    + right. right. split; [done|]. right. by split.
  - destruct (total String.le (sym_path a) (sym_path b)).
    + left. left. by split.
    + right. left. split; [done|]. by intros ?.
Qed.

Global Instance symbol_before_trans : Transitive symbol_before.
Proof.
  intros a b c. unfold symbol_before.
  intros [[Hab Hne]|[Hab Hx]] [[Hbc Hne']|[Hbc Hy]].
  - left. split; [by etrans|]. intros Hac. apply Hne.
    apply (anti_symm String.le); [done|]. by rewrite Hac.
  - left. by rewrite <- Hbc.
  - left. by rewrite Hab.
  - right. split; [congruence|].
    destruct Hx as [?|[? Hn]], Hy as [?|[? Hn']]; try (left; lia).
    right. split; [lia|]. by etrans.
Qed.

Lemma sorted_symbol_before l : StronglySorted symbol_before (sorted symbol_le l).
Proof.
  apply Sorted_StronglySorted; [apply _|].
  pose proof (sorted_Sorted symbol_le symbol_le_total l) as Hs.
  induction Hs as [|x l' Hl IH Hx]; constructor; [done|].
  destruct Hx as [|y l'' Hy]; constructor. by apply symbol_le_spec.
Qed.

Lemma scan_file_declared os files rel_path abs_path kb mfb msl rem :
  (rel_path, abs_path) ∈ files →
  Forall (declared os files)
         (scan_file os rel_path abs_path kb mfb msl rem).1.1.2.
Proof.
  intros Hin.
  pose proof (scan_file_kinds os rel_path abs_path kb mfb msl rem) as Hk.
  revert Hk. unfold scan_file, closed_kinds.
  destruct (_ >? _); [done|].
  destruct (read_lines os abs_path) as [lines|] eqn:Hlines; [|done].
  cbn [fst snd]. fold (table_of rel_path). intros Hk.
  destruct (scan_lines_inv rel_path (table_of rel_path) mfb msl rem lines []
              (mkScan (table_of rel_path) [] 0 0 false))
    as (seen & Hseen & _ & _ & Hs & _).
  { split; [done|]. split; [by right|]. split; constructor. }
  rewrite Forall_forall in Hk, Hs. apply Forall_forall. intros s Hs'.
  split; [by apply Hk|].
  destruct (Hs s Hs') as [Hr _].
  apply (read_off_prefix _ _ _ lines) in Hr; [|done].
  pose proof Hr as (Hp & _). rewrite Hp.
  by exists abs_path, lines.
Qed.

Lemma accept_symbols_Forall (P : Symbol → Prop) max_symbols file_symbols
    symbols truncated :
  Forall P file_symbols → Forall P symbols →
  Forall P (accept_symbols max_symbols file_symbols symbols truncated).1.
Proof.
  intros Hf Hs. unfold accept_symbols.
  destruct (_ && _); [|done]. destruct (_ <=? 0); [done|].
  assert (Forall P (symbols ++ PyStr.list_upto
            (max_symbols - Z.of_nat (length symbols)) file_symbols)).
  { apply Forall_app. split; [done|].
    destruct (list_upto_prefix (max_symbols - Z.of_nat (length symbols))
                file_symbols) as [rest Hrest].
    rewrite Hrest in Hf. by apply Forall_app in Hf as [? _]. }
  by destruct (_ >=? _).
Qed.

Lemma record_scan_symbols args rel_path r st :
  symbols (record_scan args rel_path r st)
  = (accept_symbols (max_symbols args) r.1.1.2 (symbols st)
                    (symbols_truncated st)).1.
Proof.
  destruct r as [[[lc fs] br] tr]. unfold record_scan. cbn [fst snd].
  by destruct (accept_symbols _ _ _ _).
Qed.

Lemma fold_declared args os files todo st :
  todo ⊆ files →
  Forall (declared os files) (symbols st) →
  Forall (declared os files)
         (symbols (fold_left (scan_step args os) todo st)).
Proof.
  revert st. induction todo as [|item todo IH]; intros st Hsub Hst; [done|].
  cbn [fold_left]. apply IH.
  { intros x Hx. apply Hsub. by right. }
  assert (item ∈ files) as Hin by (apply Hsub; left).
  destruct item as [rel_path abs_path]. unfold scan_step.
  destruct (getsize os abs_path); [|done].
  destruct (getmtime os abs_path); [|done]. cbn [total_bytes].
  destruct (_ && _); [|done].
  rewrite record_scan_symbols. cbn [symbols symbols_truncated].
  apply accept_symbols_Forall; [|done]. by apply scan_file_declared.
Qed.

(** X20. Every symbol of a report has a kind of the closed set and was read
    off a line of a readable candidate file, whose path it carries; the
    symbols are ordered by path, then line, then name. *)
Theorem out_symbols_declared args w :
  Forall (declared (w_os w) (files_for_scan args w)) (out_symbols (main args w))
  ∧ StronglySorted symbol_before (out_symbols (main args w)).
Proof.
  destruct (main_symbols args w) as [-> _].
  set (st := scan_all _ _ _).
  destruct (list_upto_prefix (max_symbols args) (sorted symbol_le (symbols st)))
    as [rest Hrest].
  split.
  - assert (Forall (declared (w_os w) (files_for_scan args w))
                   (sorted symbol_le (symbols st))) as Hall.
    { rewrite sorted_perm. by apply fold_declared. }
    rewrite Hrest in Hall. by apply Forall_app in Hall as [? _].
  - eapply StronglySorted_prefix; [by exists rest|].
    apply sorted_symbol_before.
Qed.

(** *** The lines of the tree *)

Lemma listed_level f e rel_dir depth level name is_dir :
  listed f e rel_dir depth level name is_dir → depth ≤ level.
Proof. induction 1; lia. Qed.

Lemma walk_listed max_depth f e rel_dir depth line :
  line ∈ walk max_depth f rel_dir depth e →
  ∃ level name is_dir,
    listed f e rel_dir depth level name is_dir
    ∧ level ≤ max_depth ∧ line = tree_line level name is_dir.
Proof.
  revert rel_dir depth.
  induction e as [name|name|name children IH] using entry_induction;
    intros rel_dir depth.
  - cbn [walk]. destruct (_ >? _); by intros ?%not_elem_of_nil.
  - cbn [walk]. destruct (_ >? _); by intros ?%not_elem_of_nil.
  - cbn [walk]. rewrite Forall_forall in IH.
    destruct (Z.gtb_spec depth max_depth); [by intros ?%not_elem_of_nil|].
    intros [Hdir|Hfile]%elem_of_app.
    + apply elem_of_concat in Hdir as (l & Hl & Hline).
      apply list_elem_of_fmap in Hl as (cs & -> & Hcs).
      apply list_elem_of_filter in Hcs as [[Hisdir Hex] Hcs].
      apply sorted_entries_elem in Hcs as [Hin Heq].
      apply elem_of_cons in Hline as [->|Hline].
      * exists depth, (entry_name cs.1), true. rewrite <- Hisdir.
        split; [constructor; [done|by rewrite Hisdir]|]. split; [lia|].
        by rewrite Hisdir.
      * destruct (Z.ltb_spec depth max_depth);
          [|by apply not_elem_of_nil in Hline].
        rewrite Heq in Hline.
        destruct (IH _ Hin _ _ Hline) as (level & name' & is_dir & Hl & ? & ?).
        exists level, name', is_dir. split; [by eapply listed_below|done].
    + apply list_elem_of_fmap in Hfile as (cs & -> & Hcs).
      apply list_elem_of_filter in Hcs as [[Hisdir Hex] Hcs].
      apply sorted_entries_elem in Hcs as [Hin _].
      exists depth, (entry_name cs.1), false. rewrite <- Hisdir.
      split; [constructor; [done|by rewrite Hisdir]|]. split; [lia|].
      by rewrite Hisdir.
Qed.

Lemma listed_walk max_depth f e rel_dir depth level name is_dir :
  listed f e rel_dir depth level name is_dir → level ≤ max_depth →
  tree_line level name is_dir ∈ walk max_depth f rel_dir depth e.
Proof.
  induction 1 as [dir children rel_dir depth sub Hin Hex
                 |dir children rel_dir depth sub level name is_dir
                    Hin Hisdir Hex Hbelow IH]; intros Hlevel.
  - cbn [walk]. destruct (Z.gtb_spec depth max_depth); [lia|].
    set (g := λ c, walk max_depth f (child_rel rel_dir (entry_name c))
                     (depth + 1) c).
    pose proof (sorted_entries_elem_2 children g sub Hin) as Hsub.
    apply elem_of_app. destruct (isdir sub) eqn:Hisdir.
    + left. apply elem_of_concat.
      exists ((PyStr.repeat "  " depth +:+ entry_name sub +:+ "/")
                :: (if depth <? max_depth then g sub else [])).
      split; [|left].
      apply (list_elem_of_fmap_2'
               (λ cs : entry * list string,
                  (PyStr.repeat "  " depth +:+ entry_name cs.1 +:+ "/")
                    :: (if depth <? max_depth then cs.2 else []))
               _ (sub, g sub)); [|done].
      by apply list_elem_of_filter.
    + right.
      apply (list_elem_of_fmap_2'
               (λ cs : entry * list string,
                  PyStr.repeat "  " depth +:+ entry_name cs.1)
               _ (sub, g sub)); [|done].
      by apply list_elem_of_filter.
  - pose proof (listed_level _ _ _ _ _ _ _ Hbelow) as Hdeep.
    cbn [walk]. destruct (Z.gtb_spec depth max_depth); [lia|].
    set (g := λ c, walk max_depth f (child_rel rel_dir (entry_name c))
                     (depth + 1) c).
    pose proof (sorted_entries_elem_2 children g sub Hin) as Hsub.
    apply elem_of_app. left. apply elem_of_concat.
    exists ((PyStr.repeat "  " depth +:+ entry_name sub +:+ "/")
              :: (if depth <? max_depth then g sub else [])).
    split.
    + apply (list_elem_of_fmap_2'
               (λ cs : entry * list string,
                  (PyStr.repeat "  " depth +:+ entry_name cs.1 +:+ "/")
                    :: (if depth <? max_depth then cs.2 else []))
               _ (sub, g sub)); [|done].
      by apply list_elem_of_filter.
    + right. destruct (Z.ltb_spec depth max_depth); [|lia].
      by apply IH.
Qed.

(** X21. The lines of the tree, before the cut, are exactly the lines of
    the entries of the directory structure that no filter rule excludes,
    that lie below directories none of which a filter rule excludes, and
    whose level is at most [max_depth]: each is indented by two spaces per
    level and a directory carries a slash. So directories at the depth cap
    are listed but not entered, and a negative cap gives no line. *)
Theorem walk_lines max_depth f root line :
  line ∈ walk max_depth f "" 0 root
  ↔ ∃ level name is_dir,
      listed f root "" 0 level name is_dir
      ∧ 0 ≤ level ≤ max_depth
      ∧ line = tree_line level name is_dir.
Proof.
  split.
  - intros (level & name & is_dir & Hl & ? & ?)%walk_listed.
    exists level, name, is_dir. split; [done|]. split; [|done].
    apply listed_level in Hl. lia.
  - intros (level & name & is_dir & Hl & [_ ?] & ->). by apply listed_walk.
Qed.

(** With a depth cap of zero the tree lists the entries of the root only,
    with a cap of one also those of its directories, and a negative cap
    gives no line. *)
Example walk_depth_zero :
  let f := mkFilters DEFAULT_EXCLUDED_DIRS [] [] [] [] in
  let root := Dir "" (Some [Dir "src" (Some [File "deep.py"]); File "a.py"]) in
  walk 0 f "" 0 root = ["src/"; "a.py"]
  ∧ walk 1 f "" 0 root = ["src/"; "  deep.py"; "a.py"]
  ∧ walk (-1) f "" 0 root = [].
Proof. repeat split; vm_compute; reflexivity. Qed.

(** *** The file-bytes flag *)

Lemma scan_lines_bytes_read rel_path mfb msl rem lines st :
  s_bytes_read (scan_lines rel_path mfb msl rem lines st)
  ≤ s_bytes_read st + total_len lines.
Proof.
  revert st. induction lines as [|line rest IH]; intros st; [cbn; lia|].
  rewrite total_len_cons.
  pose proof (len_nonneg line). pose proof (total_len_nonneg rest).
  cbn [scan_lines s_line_count s_bytes_read s_patterns s_symbols s_truncated].
  repeat case_match; cbn [set_truncated s_bytes_read]; try lia.
  match goal with |- context [scan_lines _ _ _ _ _ ?s] => specialize (IH s) end.
  rewrite match_line_bytes in IH. cbn [s_bytes_read] in IH. lia.
Qed.

Lemma record_scan_file_flag args rel_path r st :
  file_bytes_truncated (record_scan args rel_path r st)
  = (r.2 && negb (total_bytes st + r.1.2 >=? max_total_bytes args))
    || file_bytes_truncated st.
Proof.
  destruct r as [[[lc fs] br] tr]. unfold record_scan.
  destruct (accept_symbols _ _ _ _). cbn [file_bytes_truncated fst snd].
  by destruct (tr && _).
Qed.

Lemma scan_step_file_flag args os st item :
  0 ≤ total_bytes st →
  file_bytes_truncated (scan_step args os st item) = true →
  file_bytes_truncated st = true
  ∨ (max_file_bytes args < max_total_bytes args ∧ over_file_cap args os item).
Proof.
  intros Hpos. destruct item as [rel_path abs_path]. unfold scan_step.
  destruct (getsize os abs_path); [|by left].
  destruct (getmtime os abs_path); [|by left]. cbn [total_bytes].
  destruct (should_scan rel_path); cbn [andb]; [|by left].
  destruct (Z.ltb_spec (total_bytes st) (max_total_bytes args)) as [Hlt|Hge];
    [|by left].
  rewrite record_scan_file_flag. cbn [total_bytes file_bytes_truncated].
  intros [[Htr Hroom]%andb_true_iff|?]%orb_true_iff; [|by left]. right.
  revert Htr Hroom. unfold scan_file, over_file_cap. cbn [fst snd].
  destruct (_ >? _); [done|].
  destruct (read_lines os abs_path) as [lines|] eqn:Hlines; [|done].
  cbn [fst snd]. intros Htr Hroom.
  set (st0 := mkScan _ [] 0 0 false) in *.
  destruct (scan_lines_truncated rel_path (max_file_bytes args)
              (max_scan_lines args) (max_total_bytes args - total_bytes st)
              lines st0) as [Hb Hwhy]; [done|done|by left|].
  cbn zeta in Hb, Hwhy. rewrite Htr in Hwhy.
  pose proof (scan_lines_bytes_read rel_path (max_file_bytes args)
                (max_scan_lines args) (max_total_bytes args - total_bytes st)
                lines st0) as Hread.
  cbn [s_bytes_read st0] in Hread.
  apply negb_true_iff in Hroom. rewrite Z.geb_leb in Hroom.
  apply Z.leb_gt in Hroom.
  split; [lia|]. exists lines. split; [done|]. lia.
Qed.

Lemma fold_file_flag args os files st :
  total_inv args st →
  file_bytes_truncated (fold_left (scan_step args os) files st) = true →
  file_bytes_truncated st = true
  ∨ (max_file_bytes args < max_total_bytes args
     ∧ Exists (over_file_cap args os) files).
Proof.
  revert st. induction files as [|item files IH]; intros st Hinv Hflag.
  { by left. }
  cbn [fold_left] in Hflag.
  destruct (IH _ (scan_step_total_inv args os st item Hinv) Hflag)
    as [Hstep|[? ?]]; [|right; split; [done|by right]].
  destruct Hinv as [Hpos _].
  destruct (scan_step_file_flag args os st item Hpos Hstep) as [?|[? ?]];
    [by left|right; split; [done|by left]].
Qed.

(** X22. When a run raises the file-bytes flag, [max_file_bytes] is below
    [max_total_bytes] and some candidate holds more than [max_file_bytes]
    bytes: a scan that stops at the total cap raises the total-bytes flag
    instead, so with a per-file cap at or above the total cap the
    file-bytes note never appears. *)
Theorem file_bytes_flag args os files :
  file_bytes_truncated (scan_all args os files) = true →
  max_file_bytes args < max_total_bytes args
  ∧ Exists (over_file_cap args os) files.
Proof.
  intros Hflag.
  destruct (fold_file_flag args os files ledger0) as [?|?]; [|done..].
  split; [done|]. cbn. by rewrite bool_decide_false by lia.
Qed.

Lemma file_bytes_flag_witness :
  max_file_bytes small_file_cap < max_total_bytes small_file_cap
  ∧ Exists (over_file_cap small_file_cap (one_file 10 [ln "abcdef"]))
           [("a.py", "/repo/a.py")].
Proof. apply file_bytes_flag. vm_compute. reflexivity. Defined.

(** *** Scheduler fairness *)

Lemma group_key_spec rel_path :
  PyStr.contains "/" (group_key rel_path) = false
  ∧ (rel_path = group_key rel_path
     ∨ ∃ rest, rel_path = group_key rel_path +:+ "/" +:+ rest).
Proof.
  unfold group_key. pose proof (split1_spec rel_path) as H.
  destruct (PyStr.contains "/" rel_path) eqn:Hc.
  - destruct H as (before & after & -> & -> & Hb). cbn.
    split; [done|]. right. by exists after.
  - split; [done|by left].
Qed.

(** C6. The scan order is made of rounds: there are groups, one for every
    top-level key of the candidates, taken in sorted key order, each holding
    the candidates of its key ordered by extension priority, then name
    priority, then path; round [r] lists the [r]-th file of every group that
    has one, in the order of the groups, and the scan order is round 0, then
    round 1, and so on while a group has files left. In particular the scan
    order starts with the first file of every group, so one file of every
    group comes before the second file of any group. The key of a candidate
    is the first segment of its path: it holds no slash, and the path is the
    key or the key, a slash and the rest. The extension priority is the
    number the extension table gives for the lower-cased extension, 100
    without an entry, and the name priority is the index of the first name
    token the lower-cased base name contains, 13 without one. On the paths
    of the worked example, with four top-level groups, this gives the order
    stated. *)
Theorem reorder_round_robin files :
  (∃ (keys : list string) (groups : list (list candidate)),
     StronglySorted String.le keys ∧ NoDup keys
     ∧ (∀ k, k ∈ keys ↔ ∃ item, item ∈ files ∧ group_key item.1 = k)
     ∧ Forall2 (λ k g, g ≡ₚ group_of files k ∧ StronglySorted before g)
               keys groups
     ∧ reorder_files_for_scan files = interleave groups
     ∧ Forall2 (λ g item, head g = Some item) groups (round groups 0)
     ∧ ∃ rest, reorder_files_for_scan files = round groups 0 ++ rest)
  ∧ (∀ rel_path,
       PyStr.contains "/" (group_key rel_path) = false
       ∧ (rel_path = group_key rel_path
          ∨ ∃ rest, rel_path = group_key rel_path +:+ "/" +:+ rest))
  ∧ (∀ rel_path,
       (ext_priority rel_path).1
       = default 100 (assoc_get EXT_SCAN_PRIORITY
                        (PyStr.lower (PyStr.splitext_ext rel_path))))
  ∧ (∀ rel_path,
       name_priority rel_path
       = default 13 (first_token 0 NAME_TOKENS
                       (PyStr.lower (PyStr.basename rel_path))))
  ∧ reorder_files_for_scan (cand <$> fairness_paths) = cand <$> fairness_order.
Proof.
  split; [apply reorder_rounds|].
  split; [apply group_key_spec|].
  split; [done|]. split; [done|].
  vm_compute. reflexivity.
Qed.
